(** * UnityMCP server: a shallow embedding of [unity-mcp-server/src/index.ts]

    The TypeScript class [UnityMCPServer] keeps five mutable fields
    ([unityConnection], [editorState], [logBuffer], [commandResultPromise],
    [commandStartTime]) and reacts to events of the Node.js event loop:
    WebSocket events of the Unity editor, tool calls of the MCP client and
    the timers armed by [execute_editor_command].  Every event handler runs
    to completion before the next one starts, so the server is modelled as a
    state machine over a record of those fields; an [await] splits a handler
    into the part run by the call and the part run when the promise settles. *)

From stdpp Require Import gmap strings list fin_maps pretty.
From Stdlib Require Import Ascii ZArith Lia.

#[local] Set Warnings "-register-all".
#[local] Open Scope Z_scope.

(** ** The JavaScript values and library functions the server uses *)

Module JS.

(** A value produced by [JSON.parse].  An object is the finite map of its
    own properties: [JSON.parse] defines every key of the text, the key
    [__proto__] too, as an own data property.  Numbers are the integers.
    The JavaScript [undefined] is the [None] of [option JSON].

    A string of the model is a JavaScript string whose code units are all
    below 256, character by character (it is not a UTF-8 encoding);
    JavaScript strings with other code units are outside the model. *)
Inductive JSON : Type :=
  | JNull
  | JBool (b : bool)
  | JNum (n : Z)
  | JStr (s : string)
  | JArr (l : list JSON)
  | JObj (m : gmap string JSON).

(** [String.prototype.startsWith]. *)
Definition startsWith (s p : string) : bool := String.prefix p s.

(** [String.prototype.includes]. *)
Fixpoint includes (s sub : string) : bool :=
  String.prefix sub s ||
  match s with
  | EmptyString => false
  | String _ s' => includes s' sub
  end.

(** The characters [String.prototype.trim] strips, among the code units
    below 256: the white space TAB, VT, FF, SP and NBSP and the line
    terminators LF and CR.  The others it strips (U+FEFF, U+2028, U+2029
    and the space separators from U+1680 on) are no characters of the
    strings of the model. *)
Definition isWhiteSpace (a : ascii) : bool :=
  let n := nat_of_ascii a in
  ((9 <=? n) && (n <=? 13) || (n =? 32) || (n =? 160))%nat.

Fixpoint trimStart (s : string) : string :=
  match s with
  | String a s' => if isWhiteSpace a then trimStart s' else s
  | EmptyString => EmptyString
  end.

Definition trim (s : string) : string :=
  String.rev (trimStart (String.rev (trimStart s))).

(** [Array.prototype.includes] on an array of strings. *)
Definition arrayIncludes (l : list string) (x : string) : bool :=
  bool_decide (x ∈ l).

(** [Array.prototype.slice(start)] with one argument: a negative [start]
    counts from the end, and both ends are clamped. *)
Definition slice {A} (l : list A) (start : Z) : list A :=
  let len := Z.of_nat (length l) in
  let k := if start <? 0 then Z.max (len + start) 0 else Z.min start len in
  drop (Z.to_nat k) l.

(** Truthiness, as tested by [||], [&&], [!] and [if]. *)
Definition truthy (v : option JSON) : bool :=
  match v with
  | None | Some JNull => false
  | Some (JBool b) => b
  | Some (JNum n) => negb (n =? 0)
  | Some (JStr s) => negb (String.eqb s EmptyString)
  | Some (JArr _) | Some (JObj _) => true
  end.

(** Truthiness of a value known to be a string or [undefined]. *)
Definition truthyStr (v : option string) : bool :=
  match v with
  | Some s => negb (String.eqb s EmptyString)
  | None => false
  end.

(** [a || b]. *)
Definition or_else (a : option JSON) (b : JSON) : JSON :=
  match a with
  | Some v => if truthy a then v else b
  | None => b
  end.

(** The own enumerable properties of a truthy value, as [Object.keys] and
    the index operator present them: an array and a string are indexed by
    the decimal numerals, a number or a boolean has none. *)
Definition ownProperties (v : JSON) : gmap string JSON :=
  match v with
  | JObj m => m
  | JArr l => list_to_map (imap (λ i x, (pretty i, x)) l)
  | JStr s =>
      list_to_map
        (imap (λ i c, (pretty i, JStr (String c EmptyString)))
              (String.list_ascii_of_string s))
  | _ => ∅
  end.

(** Reading one of the named properties the server asks for
    ([activeGameObjects], ..., [projectStructure]) from the payload of a
    frame: [None] when the base is [null] or [undefined] (a [TypeError] in
    JavaScript), [Some undefined] when the property is absent.  Arrays,
    strings, numbers and booleans have none of these names. *)
Definition getProperty (base : option JSON) (name : string)
  : option (option JSON) :=
  match base with
  | None | Some JNull => None
  | Some (JObj m) => Some (m !! name)
  | Some _ => Some None
  end.

Definition isArray (v : JSON) : bool :=
  match v with JArr _ => true | _ => false end.

End JS.
Import JS.

(** ** Data model *)

(** [interface LogEntry]. *)
Record LogEntry := mkLogEntry {
  message : string;
  stackTrace : string;
  logType : string;
  timestamp : string
}.

(** [interface UnityEditorState].  The first four fields hold whatever
    truthy value the frame carried; [projectStructure] is built by the
    server and maps a category to its array of paths. *)
Record UnityEditorState := mkEditorState {
  activeGameObjects : JSON;
  selectedObjects : JSON;
  playModeState : JSON;
  sceneHierarchy : JSON;
  projectStructure : gmap string (list string)
}.

(** The field initialiser of [editorState]. *)
Definition initialEditorState : UnityEditorState :=
  {| activeGameObjects := JArr [];
     selectedObjects := JArr [];
     playModeState := JStr "Stopped";
     sceneHierarchy := JObj ∅;
     projectStructure := ∅ |}.

(** [private readonly maxLogBufferSize = 1000]. *)
Definition maxLogBufferSize : nat := 1000.

(** The body of [handleLogMessage] for a buffer of capacity [cap]:
    [push], then one [shift] when the length exceeds the capacity. *)
Definition pushEvict {A} (cap : nat) (buf : list A) (e : A) : list A :=
  let buf' := buf ++ [e] in
  if (cap <? length buf')%nat then drop 1 buf' else buf'.

(** The buffer after a sequence of inserts. *)
Definition inserts {A} (cap : nat) (buf : list A) (es : list A) : list A :=
  foldl (pushEvict cap) buf es.

(** ** Errors, results and the server state *)

(** The three [ErrorCode]s the server raises. *)
Inductive ErrorCode := InternalError | MethodNotFound | InvalidParams.

(** [new McpError(code, message)]. *)
Record McpError := mkMcpError {
  errCode : ErrorCode;
  errMessage : string
}.

(** What a handler can throw: a [TypeError] of the runtime (a property
    read on [null] or [undefined], a call of a missing method), a plain
    [new Error(message)] or an [McpError]. *)
Inductive Exn :=
  | TypeError
  | Error (msg : string)
  | Mcp (e : McpError).

(** The frame [execute_editor_command] sends to the editor:
    [{ type: 'executeEditorCommand', data: { code } }]. *)
Inductive Frame := ExecuteEditorCommand (code : string).

(** An inbound frame after [JSON.parse], by the [switch (message.type)] of
    [handleUnityMessage].  The payload of an [editorState] and of a
    [commandResult] frame is an arbitrary value; the payload of a [log]
    frame has the parameter type of [handleLogMessage], an entry with its
    four strings.  A [log] frame with another payload is outside the model:
    the handler pushes it unchecked, and the readers of the buffer throw on
    it. *)
Inductive UnityMessage :=
  | EditorStateMessage (data : option JSON)
  | CommandResultMessage (data : option JSON)
  | LogMessage (data : LogEntry)
  | UnknownMessage.

(** What [filterLogs] returns: the entries themselves, or for each entry
    the object of its selected fields, in the order they were set. *)
Inductive FilteredLogs :=
  | Entries (logs : list LogEntry)
  | Selected (logs : list (list (string * string))).

(** The value a tool call passes to [JSON.stringify] for its text content. *)
Inductive ToolResult :=
  | EditorStateResult (st : UnityEditorState)
  | ScriptsResult (paths : list string)
  | CommandResult (result : option JSON) (logs : list LogEntry)
                  (executionTime : Z)
  | LogsResult (logs : FilteredLogs).

(** An invocation of [execute_editor_command] from its [await] on: it waits
    on [Promise.race] with the locals [startLogIndex] and the deadline of
    its timer, or it has returned, or it has thrown. *)
Inductive CallStatus :=
  | Awaiting (startLogIndex : nat) (deadline : Z)
  | Completed (r : ToolResult)
  | Failed (e : McpError).

(** The fields of [UnityMCPServer], the invocations of
    [execute_editor_command] and the frames given to [send].  A WebSocket
    and an invocation are named by a number; [commandResultPromise] holds
    the number of the invocation whose [resolve] it stores. *)
Record ServerState := mkState {
  unityConnection : option nat;
  editorState : UnityEditorState;
  logBuffer : list LogEntry;
  commandResultPromise : option nat;
  commandStartTime : option Z;
  calls : list CallStatus;
  sent : list (nat * Frame)
}.

Definition initialState : ServerState :=
  {| unityConnection := None;
     editorState := initialEditorState;
     logBuffer := [];
     commandResultPromise := None;
     commandStartTime := None;
     calls := [];
     sent := [] |}.

Definition set_unityConnection (v : option nat) (s : ServerState) :=
  mkState v (editorState s) (logBuffer s) (commandResultPromise s)
          (commandStartTime s) (calls s) (sent s).
Definition set_editorState (v : UnityEditorState) (s : ServerState) :=
  mkState (unityConnection s) v (logBuffer s) (commandResultPromise s)
          (commandStartTime s) (calls s) (sent s).
Definition set_logBuffer (v : list LogEntry) (s : ServerState) :=
  mkState (unityConnection s) (editorState s) v (commandResultPromise s)
          (commandStartTime s) (calls s) (sent s).
Definition set_commandResultPromise (v : option nat) (s : ServerState) :=
  mkState (unityConnection s) (editorState s) (logBuffer s) v
          (commandStartTime s) (calls s) (sent s).
Definition set_commandStartTime (v : option Z) (s : ServerState) :=
  mkState (unityConnection s) (editorState s) (logBuffer s)
          (commandResultPromise s) v (calls s) (sent s).
Definition set_calls (v : list CallStatus) (s : ServerState) :=
  mkState (unityConnection s) (editorState s) (logBuffer s)
          (commandResultPromise s) (commandStartTime s) v (sent s).
Definition set_sent (v : list (nat * Frame)) (s : ServerState) :=
  mkState (unityConnection s) (editorState s) (logBuffer s)
          (commandResultPromise s) (commandStartTime s) (calls s) v.

(** ** Handlers as state transformers that may throw *)

Inductive Res (A : Type) :=
  | Ok (a : A)
  | Throw (e : Exn).
Arguments Ok {A} a.
Arguments Throw {A} e.

Definition M (A : Type) : Type := ServerState → Res A * ServerState.

#[global] Instance M_ret : MRet M := λ A a s, (Ok a, s).
#[global] Instance M_bind : MBind M := λ A B k m s,
  match m s with
  | (Ok a, s') => k a s'
  | (Throw e, s') => (Throw e, s')
  end.

Definition throw {A} (e : Exn) : M A := λ s, (Throw e, s).
Definition gets {A} (f : ServerState → A) : M A := λ s, (Ok (f s), s).
Definition modify (f : ServerState → ServerState) : M unit :=
  λ s, (Ok tt, f s).

(** A computation of the runtime that throws a [TypeError] or yields. *)
Definition orTypeError {A} (o : option A) : M A :=
  match o with
  | Some a => mret a
  | None => throw TypeError
  end.

(** ** [handleLogMessage] *)

Definition handleLogMessage (logEntry : LogEntry) : M unit :=
  modify (λ s, set_logBuffer (pushEvict maxLogBufferSize (logBuffer s) logEntry) s).

(** ** The [editorState] case of [handleUnityMessage] *)

Definition asString (v : JSON) : option string :=
  match v with JStr s => Some s | _ => None end.

(** [(value as string[]).filter(path => !path.startsWith('Packages/'))]:
    [None] is the [TypeError] of calling [startsWith] on an element that is
    not a string. *)
Definition userPaths (value : list JSON) : option (list string) :=
  paths ← mapM asString value;
  Some (List.filter (λ path, negb (startsWith path "Packages/")) paths).

(** One round of the [forEach] over [Object.keys(projectStructure)]:
    [filteredData.projectStructure[key] = value.filter(...)] when the value
    is an array.  The target is a fresh [{}], so the assignment defines an
    own property, except under the key [__proto__]: there it runs the
    setter inherited from [Object.prototype], which makes the filtered
    array the prototype of the target and defines no own property.  The
    readers of the mirror do not get at that array: [JSON.stringify] and
    the spread take own properties only, and the read of [scripts] finds no
    property of that name on an array. *)
Definition filterCategory (key : string) (value : JSON)
    (acc : option (gmap string (list string)))
  : option (gmap string (list string)) :=
  filtered ← acc;
  match value with
  | JArr paths =>
      kept ← userPaths paths;
      Some (if String.eqb key "__proto__" then filtered
            else <[key := kept]> filtered)
  | _ => Some filtered
  end.

(** The loop that fills [filteredData.projectStructure], from [{}]. *)
Definition filterProjectStructure (structure : JSON)
  : option (gmap string (list string)) :=
  map_fold filterCategory (Some ∅) (ownProperties structure).

(** The time [setTimeout] waits before it rejects the race. *)
Definition timeoutMs : Z := 5000.

Definition timeoutMessage : string :=
  "Command execution timed out after " +:+ pretty (timeoutMs / 1000) +:+
  " seconds. This may indicate a long-running operation or an issue with the Unity Editor.".

(** The [catch] block of [execute_editor_command], on an [Error] with the
    given message. *)
Definition executeCatch (msg : string) : McpError :=
  if includes msg "timed out" then mkMcpError InternalError msg
  else if includes msg "NullReferenceException" then
    mkMcpError InvalidParams
      "The code attempted to access a null object. Please check that all GameObject references exist."
  else if includes msg "CompileError" then
    mkMcpError InvalidParams
      "C# compilation error. Please check the syntax of your code."
  else mkMcpError InternalError ("Failed to execute command: " +:+ msg).

(** The rest of [execute_editor_command] after its [await], run when the
    race settles: with the value given to [resolve], or with the message of
    the [Error] given to [reject].  [Promise.race] settles once: for an
    invocation that is not waiting any more nothing happens. *)
Definition resume (now : Z) (call : nat) (outcome : string + option JSON)
    (s : ServerState) : ServerState :=
  match calls s !! call with
  | Some (Awaiting startLogIndex _) =>
      let status :=
        match outcome with
        | inr result =>
            let commandLogs :=
              List.filter (λ log, includes (message log) "[UnityMCP]")
                          (slice (logBuffer s) (Z.of_nat startLogIndex)) in
            let executionTime := now - default 0 (commandStartTime s) in
            Completed (CommandResult result commandLogs executionTime)
        | inl msg => Failed (executeCatch msg)
        end in
      set_calls (<[call := status]> (calls s)) s
  | _ => s
  end.

(** The [editorState] case of [handleUnityMessage]. *)
Definition storeEditorState (data : option JSON) : M unit :=
  active ← orTypeError (getProperty data "activeGameObjects");
  selected ← orTypeError (getProperty data "selectedObjects");
  playMode ← orTypeError (getProperty data "playModeState");
  hierarchy ← orTypeError (getProperty data "sceneHierarchy");
  structure ← orTypeError (getProperty data "projectStructure");
  filtered ←
    match structure with
    | Some v =>
        if truthy structure then orTypeError (filterProjectStructure v)
        else mret ∅
    | None => mret ∅
    end;
  modify (set_editorState
    {| activeGameObjects := or_else active (JArr []);
       selectedObjects := or_else selected (JArr []);
       playModeState := or_else playMode (JStr "Stopped");
       sceneHierarchy := or_else hierarchy (JObj ∅);
       projectStructure := filtered |}).

(** [handleUnityMessage].  In the [commandResult] case [resolve] settles
    the promise of the invocation in the slot and the slot is emptied; the
    rest of that invocation is a reaction of the promise, a microtask,
    which runs only after the handlers of the current turn of the event
    loop are done.  So the handler yields the invocations it woke, each
    with the value given to [resolve], and leaves their continuation to
    the end of the turn. *)
Definition handleUnityMessage (msg : UnityMessage)
  : M (list (nat * option JSON)) :=
  match msg with
  | EditorStateMessage data =>
      storeEditorState data;;
      mret []
  | CommandResultMessage data =>
      pending ← gets commandResultPromise;
      match pending with
      | Some call =>
          modify (set_commandResultPromise None);;
          mret [(call, data)]
      | None => mret []
      end
  | LogMessage data =>
      handleLogMessage data;;
      mret []
  | UnknownMessage => mret []
  end.

(** The [message] handler of the socket for one frame, after the frames
    before it in the same turn: [handleUnityMessage] under [try]; what it
    throws is logged and the frame is dropped. *)
Definition onMessage (msg : UnityMessage)
    (acc : ServerState * list (nat * option JSON))
  : ServerState * list (nat * option JSON) :=
  match handleUnityMessage msg acc.1 with
  | (Ok woken, s') => (s', acc.2 ++ woken)
  | (Throw _, s') => (s', acc.2)
  end.

(** One turn of the event loop in which the socket delivers the frames
    [msgs]: the handler runs for each frame in order, then the
    continuations of the invocations woken in the turn run, with the clock
    and the buffer as the last frame left them. *)
Definition deliver (now : Z) (msgs : list UnityMessage) (s : ServerState)
  : ServerState :=
  let handled := foldl (λ acc msg, onMessage msg acc) (s, []) msgs in
  foldl (λ s' woken, resume now woken.1 (inr woken.2) s') handled.1 handled.2.

(** ** Tool calls *)

(** The options of [filterLogs]. *)
Record LogOptions := mkLogOptions {
  types : option (list string);
  count : option Z;
  fields : option (list string);
  messageContains : option string;
  stackTraceContains : option string;
  timestampAfter : option string;
  timestampBefore : option string
}.

(** [request.params.arguments], each property with the type the handler
    casts it to; [code] is checked by the handler itself and stays a value.
    An absent [arguments] reads like an object without properties.  The
    casts check nothing at run time: a request whose arguments have other
    types is outside the model. *)
Record ToolArgs := mkToolArgs {
  arg_format : option string;
  arg_code : option JSON;
  arg_types : option (list string);
  arg_count : option Z;
  arg_fields : option (list string);
  arg_messageContains : option string;
  arg_stackTraceContains : option string;
  arg_timestampAfter : option string;
  arg_timestampBefore : option string
}.

Definition noArgs : ToolArgs :=
  mkToolArgs None None None None None None None None None.

(** [request.params]. *)
Record Request := mkRequest {
  name : string;
  arguments : ToolArgs
}.

(** A tool call has returned its result, or waits at its [await]. *)
Inductive Outcome :=
  | Done (r : ToolResult)
  | Pending (call : nat).

Definition availableTools : list string :=
  ["get_editor_state"; "execute_editor_command"; "get_logs"].

Definition validFormats : list string := ["Raw"; "scripts only"; "no scripts"].

Definition notConnected : McpError :=
  mkMcpError InternalError
    "Unity Editor is not connected. Please ensure the Unity Editor is running and the UnityMCP window is open.".

Definition doubleQuote : string := String (ascii_of_nat 34) EmptyString.

(** The fields [filterLogs] copies, and the read [log[field]]. *)
Definition isLogField (field : string) : bool :=
  String.eqb field "message" || String.eqb field "stackTrace" ||
  String.eqb field "logType" || String.eqb field "timestamp".

Definition readField (log : LogEntry) (field : string) : string :=
  if String.eqb field "message" then message log
  else if String.eqb field "stackTrace" then stackTrace log
  else if String.eqb field "logType" then logType log
  else timestamp log.

(** [obj[key] = value] on an object kept in the order its keys were set. *)
Fixpoint setProperty (obj : list (string * string)) (key value : string)
  : list (string * string) :=
  match obj with
  | [] => [(key, value)]
  | (k, v) :: rest =>
      if String.eqb k key then (k, value) :: rest
      else (k, v) :: setProperty rest key value
  end.

Definition selectFields (fieldNames : list string) (log : LogEntry)
  : list (string * string) :=
  foldl (λ selected field,
           if isLogField field
           then setProperty selected field (readField log field)
           else selected)
        [] fieldNames.

(** The date parser of the runtime, [new Date(text).valueOf()]: the
    milliseconds of the date, [None] for an invalid date, whose comparisons
    are all false. *)
Class DateParser := Date_parse : string → option Z.

Section Server.

Context `{!DateParser}.

Definition dateLt (a b : string) : bool :=
  match Date_parse a, Date_parse b with
  | Some x, Some y => x <? y
  | _, _ => false
  end.

(** The callback of the [filter] in [filterLogs]. *)
Definition keepLog (options : LogOptions) (log : LogEntry) : bool :=
  if match types options with
     | Some ts => negb (arrayIncludes ts (logType log))
     | None => false
     end then false
  else if truthyStr (messageContains options) &&
          negb (includes (message log) (default EmptyString (messageContains options)))
  then false
  else if truthyStr (stackTraceContains options) &&
          negb (includes (stackTrace log) (default EmptyString (stackTraceContains options)))
  then false
  else if truthyStr (timestampAfter options) &&
          dateLt (timestamp log) (default EmptyString (timestampAfter options))
  then false
  else if truthyStr (timestampBefore options) &&
          dateLt (default EmptyString (timestampBefore options)) (timestamp log)
  then false
  else true.

(** [filterLogs]. *)
Definition filterLogs (options : LogOptions) : M FilteredLogs :=
  buffer ← gets logBuffer;
  let count := default 100 (count options) in
  let filteredLogs := List.filter (keepLog options) buffer in
  let filteredLogs := slice filteredLogs (- count) in
  match fields options with
  | Some (f :: fs) => mret (Selected (map (selectFields (f :: fs)) filteredLogs))
  | _ => mret (Entries filteredLogs)
  end.

(** The [get_editor_state] case.  Past the check of [format] the [switch]
    sees one of the three valid formats, so its last case stands for
    ['no scripts']. *)
Definition getEditorState (args : ToolArgs) : M Outcome :=
  let format := if truthyStr (arg_format args)
                then default EmptyString (arg_format args) else "Raw" in
  if truthyStr (arg_format args) && negb (arrayIncludes validFormats format)
  then throw (Mcp (mkMcpError InvalidParams
         ("Invalid format: " +:+ doubleQuote +:+ format +:+ doubleQuote +:+
          ". Valid formats are: " +:+ String.concat ", " validFormats)))
  else
    state ← gets editorState;
    if String.eqb format "Raw" then
      mret (Done (EditorStateResult state))
    else if String.eqb format "scripts only" then
      mret (Done (ScriptsResult (default [] (projectStructure state !! "scripts"))))
    else
      mret (Done (EditorStateResult
        {| activeGameObjects := activeGameObjects state;
           selectedObjects := selectedObjects state;
           playModeState := playModeState state;
           sceneHierarchy := sceneHierarchy state;
           projectStructure := delete "scripts" (projectStructure state) |})).

(** The [execute_editor_command] case up to its [await]: the checks of
    [code], the frame, the promise whose callbacks fill
    [commandResultPromise], and the timer. *)
Definition executeEditorCommand (now : Z) (ws : nat) (args : ToolArgs)
  : M Outcome :=
  if negb (truthy (arg_code args)) then
    throw (Mcp (mkMcpError InvalidParams "The code parameter is required"))
  else
    match arg_code args with
    | Some (JStr code) =>
        if (String.length (trim code) =? 0)%nat then
          throw (Mcp (mkMcpError InvalidParams "The code parameter cannot be empty"))
        else
          startLogIndex ← gets (λ s, length (logBuffer s));
          modify (set_commandStartTime (Some now));;
          modify (λ s, set_sent (sent s ++ [(ws, ExecuteEditorCommand code)]) s);;
          call ← gets (λ s, length (calls s));
          modify (λ s, set_calls (calls s ++ [Awaiting startLogIndex (now + timeoutMs)]) s);;
          modify (set_commandResultPromise (Some call));;
          mret (Pending call)
    | _ =>
        throw (Mcp (mkMcpError InvalidParams "The code parameter must be a string"))
    end.

(** The [get_logs] case. *)
Definition getLogs (args : ToolArgs) : M Outcome :=
  let options :=
    {| types := arg_types args;
       count := Some (match arg_count args with
                      | Some c => if c =? 0 then 100 else c
                      | None => 100
                      end);
       fields := arg_fields args;
       messageContains := arg_messageContains args;
       stackTraceContains := arg_stackTraceContains args;
       timestampAfter := arg_timestampAfter args;
       timestampBefore := arg_timestampBefore args |} in
  logs ← filterLogs options;
  mret (Done (LogsResult logs)).

(** The handler of [CallToolRequestSchema]. *)
Definition callTool (now : Z) (request : Request) : M Outcome :=
  connection ← gets unityConnection;
  match connection with
  | None => throw (Mcp notConnected)
  | Some ws =>
      if negb (arrayIncludes availableTools (name request)) then
        throw (Mcp (mkMcpError MethodNotFound
          ("Unknown tool: " +:+ name request +:+ ". Available tools are: " +:+
           String.concat ", " availableTools)))
      else if String.eqb (name request) "get_editor_state" then
        getEditorState (arguments request)
      else if String.eqb (name request) "execute_editor_command" then
        executeEditorCommand now ws (arguments request)
      else if String.eqb (name request) "get_logs" then
        getLogs (arguments request)
      else
        throw (Mcp (mkMcpError MethodNotFound ("Unknown tool: " +:+ name request)))
  end.

(** ** The event loop *)

(** The events the server reacts to, each a turn of the event loop with
    the clock ([Date.now()]) of the moment it is handled.  The socket
    delivers one frame in a turn ([WsMessage]) or several, when they
    arrive together ([WsMessages]). *)
Inductive Event :=
  | WsConnection (ws : nat)
  | WsMessage (msg : UnityMessage)
  | WsClose (ws : nat)
  | CallTool (request : Request)
  | TimerFired (call : nat)
  | WsMessages (msgs : list UnityMessage).

(** The callback of the timer of an invocation: the runtime runs it once
    the deadline has passed, and it rejects the race with the timeout. *)
Definition timerFired (now : Z) (call : nat) (s : ServerState) : ServerState :=
  match calls s !! call with
  | Some (Awaiting _ deadline) =>
      if deadline <=? now then resume now call (inl timeoutMessage) s else s
  | _ => s
  end.

Definition step (now : Z) (ev : Event) (s : ServerState) : ServerState :=
  match ev with
  | WsConnection ws => set_unityConnection (Some ws) s
  | WsMessage msg => deliver now [msg] s
  | WsClose _ => set_unityConnection None s
  | CallTool request => snd (callTool now request s)
  | TimerFired call => timerFired now call s
  | WsMessages msgs => deliver now msgs s
  end.

Definition run (evs : list (Z * Event)) (s : ServerState) : ServerState :=
  foldl (λ s ev, step ev.1 ev.2 s) s evs.

(** The states the server can be in. *)
Inductive reachable : ServerState → Prop :=
  | reachable_init : reachable initialState
  | reachable_step now ev s : reachable s → reachable (step now ev s).

End Server.

(** ** Notions used by the statements *)

(** The arguments [{ format: 'scripts only' }]. *)
Definition scriptsOnly : ToolArgs :=
  mkToolArgs (Some "scripts only") None None None None None None None None.

(** The arguments [{ code }]. *)
Definition codeArgs (code : string) : ToolArgs :=
  mkToolArgs None (Some (JStr code)) None None None None None None None.

(** The request [execute_editor_command] with the given code. *)
Definition executeRequest (code : string) : Request :=
  mkRequest "execute_editor_command" (codeArgs code).

(** Code that passes the checks of [execute_editor_command]. *)
Definition validCode (code : string) : Prop :=
  String.length (trim code) ≠ 0%nat.

(** The error the [catch] block makes of the timeout. *)
Definition timeoutError : McpError := mkMcpError InternalError timeoutMessage.

(** The asset categories an [editorState] payload carries. *)
Definition categories (payload : gmap string JSON) : gmap string JSON :=
  match payload !! "projectStructure" with
  | Some structure => ownProperties structure
  | None => ∅
  end.

(** A category conforms to [string[]] when it is an array at all. *)
Definition isString (v : JSON) : bool :=
  match v with JStr _ => true | _ => false end.

Definition categoryOk (value : JSON) : bool :=
  match value with
  | JArr l => forallb isString l
  | _ => true
  end.

(** The payload respects the declared type of [projectStructure] wherever
    the server looks into it. *)
Definition wellTyped (payload : gmap string JSON) : Prop :=
  map_Forall (λ _ value, categoryOk value) (categories payload).

(** The paths the mirror keeps of a category. *)
Definition userOnly (paths : list string) : list string :=
  List.filter (λ path, negb (startsWith path "Packages/")) paths.

(** The frames an event delivers. *)
Definition framesOf (ev : Event) : list UnityMessage :=
  match ev with
  | WsMessage msg => [msg]
  | WsMessages msgs => msgs
  | _ => []
  end.

Definition isResultFrame (msg : UnityMessage) : Prop :=
  match msg with CommandResultMessage _ => True | _ => False end.

Definition isEditorStateFrame (msg : UnityMessage) : Prop :=
  match msg with EditorStateMessage _ => True | _ => False end.

(** The entries the [log] frames among [msgs] carry. *)
Definition loggedIn (msgs : list UnityMessage) : list LogEntry :=
  omap (λ msg, match msg with LogMessage entry => Some entry | _ => None end)
       msgs.

(** The mirror keeps a category exactly when it is an array under a key
    other than [__proto__]. *)
Definition keptOf (key : string) (value : option JSON)
  : option (list string) :=
  match value with
  | Some (JArr l) => if String.eqb key "__proto__" then None else userPaths l
  | _ => None
  end.

(** Every category of the snapshot is a filtered array. *)
Definition filteredSnapshot (st : UnityEditorState) : Prop :=
  ∀ key kept, projectStructure st !! key = Some kept →
              ∃ paths, kept = userOnly paths.

(** The state [handled] in which the handlers of the frames [msgs] leave
    the state [s], apart from the slot: they write the buffer and the
    snapshot only. *)
Record HandledBy (msgs : list UnityMessage) (s handled : ServerState)
  : Prop := mkHandledBy {
  hb_connection : unityConnection handled = unityConnection s;
  hb_startTime : commandStartTime handled = commandStartTime s;
  hb_calls : calls handled = calls s;
  hb_sent : sent handled = sent s;
  hb_logBuffer :
    logBuffer handled = inserts maxLogBufferSize (logBuffer s) (loggedIn msgs);
  hb_mirror :
    editorState handled = editorState s ∨
    (Exists isEditorStateFrame msgs ∧ filteredSnapshot (editorState handled))
}.

(** The state [execute_editor_command] leaves behind at its [await]. *)
Definition dispatched (now : Z) (ws : nat) (code : string) (s : ServerState)
  : ServerState :=
  {| unityConnection := unityConnection s;
     editorState := editorState s;
     logBuffer := logBuffer s;
     commandResultPromise := Some (length (calls s));
     commandStartTime := Some now;
     calls := calls s ++ [Awaiting (length (logBuffer s)) (now + timeoutMs)];
     sent := sent s ++ [(ws, ExecuteEditorCommand code)] |}.

(** An invocation that has returned or thrown. *)
Definition settled (status : CallStatus) : Prop :=
  match status with
  | Awaiting _ _ => False
  | _ => True
  end.

(** An event that is not a [commandResult] frame and delivers none. *)
Definition notCommandResult (ev : Z * Event) : Prop :=
  match ev.2 with
  | WsMessage (CommandResultMessage _) => False
  | WsMessages msgs => Forall (λ msg, ¬ isResultFrame msg) msgs
  | _ => True
  end.

(** How one step of the event loop looks from the command coordinator,
    that is from [calls] and [commandResultPromise]: nothing happens, a
    result frame finds the slot holding an invocation that waits no more,
    a result frame completes the invocation in the slot, a tool call
    dispatches a command, or the timer of a waiting invocation fires. *)
Inductive CoordinatorStep (now : Z) (ev : Event) (s s' : ServerState) : Prop :=
  | cs_idle :
      calls s' = calls s →
      commandResultPromise s' = commandResultPromise s →
      CoordinatorStep now ev s s'
  | cs_late_result c :
      ¬ notCommandResult (now, ev) →
      commandResultPromise s = Some c →
      commandResultPromise s' = None →
      calls s' = calls s →
      CoordinatorStep now ev s s'
  | cs_result c data i d logs t :
      ¬ notCommandResult (now, ev) →
      commandResultPromise s = Some c →
      calls s !! c = Some (Awaiting i d) →
      commandResultPromise s' = None →
      calls s' = <[c := Completed (CommandResult data logs t)]> (calls s) →
      CoordinatorStep now ev s s'
  | cs_dispatch ws code request :
      ev = CallTool request →
      s' = dispatched now ws code s →
      CoordinatorStep now ev s s'
  | cs_timeout c i d :
      ev = TimerFired c →
      calls s !! c = Some (Awaiting i d) →
      d ≤ now →
      calls s' = <[c := Failed timeoutError]> (calls s) →
      commandResultPromise s' = commandResultPromise s →
      CoordinatorStep now ev s s'.

(** A runtime in which no text is a valid date. *)
Definition noDates : DateParser := λ _, None.

(** The entries the [log] frames of a trace carry, in the order of the
    frames. *)
Definition loggedBy (evs : list (Z * Event)) : list LogEntry :=
  evs ≫= (λ ev, loggedIn (framesOf ev.2)).

(** An event that is not an [editorState] frame and delivers none. *)
Definition notEditorState (ev : Z * Event) : Prop :=
  match ev.2 with
  | WsMessage (EditorStateMessage _) => False
  | WsMessages msgs => Forall (λ msg, ¬ isEditorStateFrame msg) msgs
  | _ => True
  end.

(** No path of the snapshot lies under [Packages/]. *)
Definition packageFree (st : UnityEditorState) : Prop :=
  ∀ key paths path,
    projectStructure st !! key = Some paths → path ∈ paths →
    ¬ ∃ rest, path = "Packages/" +:+ rest.

(** What one step of the event loop does to the state: nothing; the one
    update of the handler that ran; or, in a turn that delivers frames, the
    updates of their handlers, followed by the continuation of the
    invocation in the slot when a result frame is among them. *)
Inductive Effect (now : Z) (ev : Event) (s s' : ServerState) : Prop :=
  | eff_none :
      s' = s →
      Effect now ev s s'
  | eff_connection ws :
      ev = WsConnection ws →
      s' = set_unityConnection (Some ws) s →
      Effect now ev s s'
  | eff_close ws :
      ev = WsClose ws →
      s' = set_unityConnection None s →
      Effect now ev s s'
  | eff_frames :
      HandledBy (framesOf ev) s s' →
      commandResultPromise s' = commandResultPromise s →
      (commandResultPromise s = None ∨ notCommandResult (now, ev)) →
      Effect now ev s s'
  | eff_result handled c data :
      HandledBy (framesOf ev) s handled →
      ¬ notCommandResult (now, ev) →
      commandResultPromise s = Some c →
      commandResultPromise handled = None →
      s' = resume now c (inr data) handled →
      Effect now ev s s'
  | eff_dispatch ws code request :
      ev = CallTool request →
      unityConnection s = Some ws →
      name request = "execute_editor_command" →
      arg_code (arguments request) = Some (JStr code) →
      validCode code →
      s' = dispatched now ws code s →
      Effect now ev s s'
  | eff_timeout c i d :
      ev = TimerFired c →
      calls s !! c = Some (Awaiting i d) →
      d ≤ now →
      s' = set_calls (<[c := Failed timeoutError]> (calls s)) s →
      Effect now ev s s'.

(** The arguments [{ format }] of [get_editor_state]. *)
Definition formatArgs (format : option string) : ToolArgs :=
  mkToolArgs format None None None None None None None None.

(** The number of entries [get_logs] asks [filterLogs] for. *)
Definition limitOf (args : ToolArgs) : Z :=
  match arg_count args with
  | Some c => if c =? 0 then 100 else c
  | None => 100
  end.

(** The options [get_logs] hands to [filterLogs]. *)
Definition optionsOf (args : ToolArgs) : LogOptions :=
  {| types := arg_types args;
     count := Some (limitOf args);
     fields := arg_fields args;
     messageContains := arg_messageContains args;
     stackTraceContains := arg_stackTraceContains args;
     timestampAfter := arg_timestampAfter args;
     timestampBefore := arg_timestampBefore args |}.

(** A filter text that is present and not empty. *)
Definition given (filter : option string) (text : string) : Prop :=
  filter = Some text ∧ text ≠ EmptyString.

(** The arguments with another [fields]. *)
Definition withFields (fieldNames : option (list string)) (args : ToolArgs)
  : ToolArgs :=
  mkToolArgs (arg_format args) (arg_code args) (arg_types args)
             (arg_count args) fieldNames (arg_messageContains args)
             (arg_stackTraceContains args) (arg_timestampAfter args)
             (arg_timestampBefore args).

(** The characters of a text. *)
Definition chars (text : string) : list ascii := String.list_ascii_of_string text.

(** A category that is an array with an element that is no string. *)
Definition brokenCategory (value : JSON) : Prop :=
  ∃ l v, value = JArr l ∧ v ∈ l ∧ isString v = false.

(** ** Concrete runs *)

(** An editor has connected. *)
Definition connectedState : ServerState :=
  @step noDates 0 (WsConnection 1) initialState.

(** An editor has connected and one command is in flight. *)
Definition busyState : ServerState :=
  @step noDates 0 (CallTool (executeRequest "Debug.Log(1);")) connectedState.

(** An editor has connected and logged 101 lines. *)
Definition chattyState : ServerState :=
  @run noDates
    ((λ k, (0, WsMessage (LogMessage (mkLogEntry (pretty k) "" "Log" ""))))
       <$> seq 0 101)
    connectedState.

(** The payload of an [editorState] frame that lacks [playModeState] and
    [sceneHierarchy] and has a package path and a category that is no
    array. *)
Definition samplePayload : gmap string JSON :=
  <["activeGameObjects" := JArr [JStr "Main Camera"]]>
  (<["selectedObjects" := JArr []]>
  (<["projectStructure" :=
       JObj (<["scripts" := JArr [JStr "Assets/Foo.cs";
                                   JStr "Packages/com.unity.ugui/Bar.cs";
                                   JStr "Assets/Baz.cs"]]>
            (<["count" := JNum 3]> ∅))]> ∅)).

(** An editor has connected and filled the buffer with 1000 lines. *)
Definition fullState : ServerState :=
  @run noDates
    ((λ k, (0, WsMessage (LogMessage (mkLogEntry (pretty k) "" "Log" ""))))
       <$> seq 0 1000)
    connectedState.

(** An editor has connected and published [samplePayload]. *)
Definition publishedState : ServerState :=
  @step noDates 0 (WsMessage (EditorStateMessage (Some (JObj samplePayload))))
        connectedState.

Section Proofs.

Context `{!DateParser}.

(** ** The ring log buffer *)

Lemma inserts_snoc {A} cap (buf es : list A) e :
  inserts cap buf (es ++ [e]) = pushEvict cap (inserts cap buf es) e.
Proof. unfold inserts. by rewrite foldl_app. Qed.

Lemma pushEvict_length {A} cap (buf : list A) e :
  (length buf ≤ cap → length (pushEvict cap buf e) ≤ cap)%nat.
Proof.
  intros Hle. unfold pushEvict.
  destruct (Nat.ltb_spec cap (length (buf ++ [e]))) as [Hlt|Hge]; [|done].
  rewrite length_drop, length_app. simpl. lia.
Qed.

Lemma inserts_last {A} cap (es : list A) :
  (length (inserts cap [] es) ≤ cap)%nat ∧
  inserts cap [] es = drop (length es - cap) es.
Proof.
  induction es as [|e es [IHlen IHeq]] using rev_ind; [split; [simpl; lia|done]|].
  rewrite inserts_snoc. split; [by apply pushEvict_length|].
  unfold pushEvict. rewrite IHeq.
  assert (Hk : (length es - cap ≤ length es)%nat) by lia.
  rewrite <- (drop_app_le es [e] _ Hk).
  rewrite length_drop, !length_app. simpl.
  destruct (Nat.ltb_spec cap (length es + 1 - (length es - cap))) as [Hlt|Hge].
  - rewrite drop_drop. f_equal. lia.
  - f_equal. lia.
Qed.

(** C4: whatever is inserted into an empty buffer of capacity [cap], the
    buffer never holds more than [cap] events, after any prefix of the
    inserts, and it ends with exactly the [cap] events inserted last, in the
    order they were inserted; so it is for the server's buffer of capacity
    1000 fed by [log] frames, and a buffer of capacity 3 given A, B, C, D
    holds B, C, D. *)
Theorem C4_ring_buffer_keeps_last :
  (∀ (A : Type) (cap : nat) (es : list A),
     (∀ k, length (inserts cap [] (take k es)) ≤ cap)%nat ∧
     inserts cap [] es = drop (length es - cap) es) ∧
  (∀ (timed : list (Z * LogEntry)),
     let frames := (λ te, (te.1, WsMessage (LogMessage te.2))) <$> timed in
     let es := timed.*2 in
     (length (logBuffer (run frames initialState)) ≤ maxLogBufferSize)%nat ∧
     logBuffer (run frames initialState) = drop (length es - maxLogBufferSize) es) ∧
  inserts 3 [] ["A"; "B"; "C"; "D"] = ["B"; "C"; "D"].
Proof.
  split; [|split; [|reflexivity]].
  - intros A cap es. split; [|apply inserts_last].
    intros k. apply inserts_last.
  - intros timed frames es.
    assert (Hbuf : ∀ s, logBuffer (run frames s)
                        = inserts maxLogBufferSize (logBuffer s) es).
    { subst frames es. unfold run, inserts.
      induction timed as [|[t e] timed IH]; intros s; simpl; [done|].
      by rewrite IH. }
    rewrite Hbuf. apply inserts_last.
Qed.

(** ** Tool calls that only read *)

Ltac run_handler :=
  unfold callTool, getLogs, filterLogs, getEditorState, executeEditorCommand,
    throw, gets, modify, mbind, mret, M_bind, M_ret;
  cbn beta iota.

Lemma filter_all {A} (f : A → bool) (l : list A) :
  (∀ x, f x = true) → List.filter f l = l.
Proof.
  intros Hf. induction l as [|x l IH]; simpl; [done|].
  by rewrite Hf, IH.
Qed.

Lemma slice_last {A} (l : list A) (n : Z) :
  0 < n → slice l (- n) = drop (length l - Z.to_nat n) l.
Proof.
  intros Hn. unfold slice.
  destruct (Z.ltb_spec (- n) 0) as [_|?]; [|lia].
  f_equal. lia.
Qed.

Lemma availableTools_get_logs :
  arrayIncludes availableTools "get_logs" = true.
Proof. reflexivity. Qed.

(** [filterLogs] reads the buffer and leaves the state as it found it. *)
Lemma filterLogs_pure options s :
  ∃ logs, filterLogs options s = (Ok logs, s).
Proof.
  run_handler. destruct (fields options) as [[|f fs]|]; eauto.
Qed.

Lemma getLogs_pure args s :
  ∃ logs, getLogs args s = (Ok (Done (LogsResult logs)), s).
Proof.
  unfold getLogs.
  match goal with |- context [filterLogs ?o] =>
    destruct (filterLogs_pure o s) as [logs Hlogs] end.
  exists logs. unfold mbind, M_bind. by rewrite Hlogs.
Qed.

Lemma callTool_get_logs now args s ws :
  unityConnection s = Some ws →
  callTool now (mkRequest "get_logs" args) s = getLogs args s.
Proof.
  intros Hws. unfold callTool, gets, mbind, M_bind. by rewrite Hws.
Qed.

Lemma callTool_disconnected now request s :
  unityConnection s = None →
  callTool now request s = (Throw (Mcp notConnected), s).
Proof.
  intros Hws. unfold callTool, gets, throw, mbind, M_bind. by rewrite Hws.
Qed.

(** C5 (as amended): [get_logs] called without any filter option returns
    the last 100 entries of the buffer, the whole buffer when it holds at
    most 100, unmodified and in insertion order; the state is untouched. *)
Theorem C5_get_logs_default_last_100 now s ws :
  unityConnection s = Some ws →
  callTool now (mkRequest "get_logs" noArgs) s
  = (Ok (Done (LogsResult
       (Entries (drop (length (logBuffer s) - 100) (logBuffer s))))), s).
Proof.
  intros Hws. rewrite (callTool_get_logs _ _ _ ws Hws).
  run_handler. simpl.
  rewrite filter_all by done.
  by rewrite (slice_last _ 100).
Qed.

(** C7: without a connection [execute_editor_command] throws the
    not-connected error at once, and the state, with the frames sent so
    far, is what it was: nothing is sent. *)
Theorem C7_execute_not_connected now args s :
  unityConnection s = None →
  callTool now (mkRequest "execute_editor_command" args) s
  = (Throw (Mcp notConnected), s) ∧
  sent (step now (CallTool (mkRequest "execute_editor_command" args)) s)
  = sent s.
Proof.
  intros Hws. split.
  - by apply callTool_disconnected.
  - simpl. by rewrite callTool_disconnected.
Qed.

(** C8: [filterLogs], under every filter configuration and in every state,
    returns its result and leaves the state, hence the buffer, as it was,
    and run again it returns the same; so does the [get_logs] tool call,
    whatever the clock. *)
Theorem C8_filterLogs_pure_read options args now now' s :
  (filterLogs options s).2 = s ∧
  logBuffer (filterLogs options s).2 = logBuffer s ∧
  filterLogs options (filterLogs options s).2 = filterLogs options s ∧
  (callTool now (mkRequest "get_logs" args) s).2 = s ∧
  callTool now' (mkRequest "get_logs" args)
           (callTool now (mkRequest "get_logs" args) s).2
  = callTool now (mkRequest "get_logs" args) s.
Proof.
  destruct (filterLogs_pure options s) as [logs Hlogs].
  rewrite Hlogs. simpl. rewrite Hlogs. split_and!; try done.
  - destruct (unityConnection s) as [ws|] eqn:Hws.
    + rewrite (callTool_get_logs _ _ _ ws Hws).
      by destruct (getLogs_pure args s) as [r ->].
    + by rewrite callTool_disconnected.
  - destruct (unityConnection s) as [ws|] eqn:Hws.
    + rewrite (callTool_get_logs now _ _ ws Hws).
      destruct (getLogs_pure args s) as [r Hr]. rewrite Hr. simpl.
      by rewrite (callTool_get_logs now' _ _ ws Hws).
    + rewrite (callTool_disconnected now) by done. simpl.
      by rewrite callTool_disconnected.
Qed.

(** C9: when the mirrored [projectStructure] has no [scripts] category,
    the [scripts only] format yields the empty list, not an error: from the
    [get_editor_state] case itself, and from the whole handler once an
    editor is connected. *)
Theorem C9_scripts_only_empty s :
  projectStructure (editorState s) !! "scripts" = None →
  getEditorState scriptsOnly s = (Ok (Done (ScriptsResult [])), s) ∧
  ∀ now ws, unityConnection s = Some ws →
    callTool now (mkRequest "get_editor_state" scriptsOnly) s
    = (Ok (Done (ScriptsResult [])), s).
Proof.
  intros Hnone.
  assert (Hcase : getEditorState scriptsOnly s = (Ok (Done (ScriptsResult [])), s)).
  { run_handler. simpl. by rewrite Hnone. }
  split; [done|].
  intros now ws Hws. unfold callTool, gets, mbind, M_bind. by rewrite Hws.
Qed.

(** ** Frames and turns *)

Lemma resume_slot_comm now c outcome v s :
  resume now c outcome (set_commandResultPromise v s)
  = set_commandResultPromise v (resume now c outcome s).
Proof.
  unfold resume. simpl. by destruct (calls s !! c) as [[| |]|].
Qed.

Lemma onMessage_editorState data s woken :
  onMessage (EditorStateMessage data) (s, woken)
  = ((storeEditorState data s).2, woken).
Proof.
  unfold onMessage, handleUnityMessage, mbind, mret, M_bind, M_ret. simpl.
  destruct (storeEditorState data s) as [[[]|e] s']; simpl; [|done].
  by rewrite app_nil_r.
Qed.

Lemma onMessage_result data s woken :
  onMessage (CommandResultMessage data) (s, woken)
  = match commandResultPromise s with
    | Some c => (set_commandResultPromise None s, woken ++ [(c, data)])
    | None => (s, woken)
    end.
Proof.
  unfold onMessage, handleUnityMessage, gets, modify, mbind, mret,
    M_bind, M_ret. simpl.
  destruct (commandResultPromise s); simpl; [done|]. by rewrite app_nil_r.
Qed.

Lemma onMessage_log entry s woken :
  onMessage (LogMessage entry) (s, woken)
  = (set_logBuffer (pushEvict maxLogBufferSize (logBuffer s) entry) s, woken).
Proof.
  unfold onMessage, handleUnityMessage, handleLogMessage, modify, mbind, mret,
    M_bind, M_ret. simpl. by rewrite app_nil_r.
Qed.

Lemma onMessage_unknown s woken :
  onMessage UnknownMessage (s, woken) = (s, woken).
Proof. unfold onMessage. simpl. by rewrite app_nil_r. Qed.

(** A turn with one frame, case by case. *)
Lemma step_one_frame now msg s :
  step now (WsMessage msg) s
  = foldl (λ s' woken, resume now woken.1 (inr woken.2) s')
          (onMessage msg (s, [])).1 (onMessage msg (s, [])).2.
Proof. done. Qed.

Lemma step_editorState_frame now data s :
  step now (WsMessage (EditorStateMessage data)) s = (storeEditorState data s).2.
Proof. by rewrite step_one_frame, onMessage_editorState. Qed.

Lemma step_result_frame now data s :
  step now (WsMessage (CommandResultMessage data)) s
  = match commandResultPromise s with
    | Some c => set_commandResultPromise None (resume now c (inr data) s)
    | None => s
    end.
Proof.
  rewrite step_one_frame, onMessage_result.
  destruct (commandResultPromise s); simpl; [|done].
  apply resume_slot_comm.
Qed.

Lemma step_log_frame now entry s :
  step now (WsMessage (LogMessage entry)) s
  = set_logBuffer (pushEvict maxLogBufferSize (logBuffer s) entry) s.
Proof. by rewrite step_one_frame, onMessage_log. Qed.

Lemma step_unknown_frame now s : step now (WsMessage UnknownMessage) s = s.
Proof. by rewrite step_one_frame, onMessage_unknown. Qed.

Lemma step_single_frame now msg s :
  step now (WsMessages [msg]) s = step now (WsMessage msg) s.
Proof. done. Qed.

(** ** The state mirror *)

Lemma userPaths_strings paths :
  userPaths (JStr <$> paths) = Some (userOnly paths).
Proof.
  unfold userPaths. by rewrite mapM_fmap_Some.
Qed.

Lemma strings_of_array l :
  forallb isString l → ∃ paths, l = JStr <$> paths.
Proof.
  induction l as [|v l IH]; simpl; [by exists []|].
  destruct v; try done. intros Hl.
  destruct (IH Hl) as [paths ->]. by exists (s :: paths).
Qed.

Lemma filterCategory_fold (m : gmap string JSON) :
  map_Forall (λ _ value, categoryOk value) m →
  ∃ r, map_fold filterCategory (Some ∅) m = Some r ∧
       ∀ key, r !! key = keptOf key (m !! key).
Proof.
  apply (map_fold_weak_ind
    (λ acc m, map_Forall (λ _ value, categoryOk value) m →
              ∃ r, acc = Some r ∧ ∀ key, r !! key = keptOf key (m !! key))).
  - intros _. exists ∅. split; [done|]. intros key. by rewrite !lookup_empty.
  - intros i x m' acc Hfresh IH Hall.
    apply map_Forall_insert in Hall as [Hx Hall]; [|done].
    destruct (IH Hall) as (r & -> & Hr).
    assert (Hskip : keptOf i (Some x) = None →
                    ∀ key, r !! key = keptOf key (<[i:=x]> m' !! key)).
    { intros Hnone key. destruct (decide (i = key)) as [->|Hne].
      - by rewrite lookup_insert_eq, Hr, Hfresh, Hnone.
      - by rewrite lookup_insert_ne, Hr. }
    destruct x as [| | | |l|]; try (eexists; split; [reflexivity|]; by auto).
    simpl in Hx. destruct (strings_of_array l Hx) as [paths ->].
    simpl. rewrite userPaths_strings. simpl.
    destruct (String.eqb i "__proto__") eqn:Hproto.
    + exists r. split; [done|]. apply Hskip. simpl. by rewrite Hproto.
    + eexists; split; [reflexivity|]. intros key. destruct (decide (i = key)) as [->|Hne].
      * rewrite !lookup_insert_eq. simpl. by rewrite Hproto, userPaths_strings.
      * by rewrite !lookup_insert_ne, Hr.
Qed.

Lemma ownProperties_falsy v :
  truthy (Some v) = false → ownProperties v = ∅.
Proof.
  destruct v as [| | |str| |]; try done.
  by destruct str.
Qed.

(** What an [editorState] frame with an object for payload does. *)
Lemma editorState_frame now payload s :
  wellTyped payload →
  ∃ r,
    step now (WsMessage (EditorStateMessage (Some (JObj payload)))) s
    = set_editorState
        {| activeGameObjects := or_else (payload !! "activeGameObjects") (JArr []);
           selectedObjects := or_else (payload !! "selectedObjects") (JArr []);
           playModeState := or_else (payload !! "playModeState") (JStr "Stopped");
           sceneHierarchy := or_else (payload !! "sceneHierarchy") (JObj ∅);
           projectStructure := r |} s ∧
    ∀ key, r !! key = keptOf key (categories payload !! key).
Proof.
  unfold wellTyped, categories. intros Hok.
  rewrite step_editorState_frame.
  unfold storeEditorState, orTypeError, getProperty,
    modify, mbind, mret, M_bind, M_ret, throw.
  destruct (payload !! "projectStructure") as [structure|] eqn:Hps.
  - destruct (truthy (Some structure)) eqn:Htruthy.
    + unfold filterProjectStructure.
      destruct (filterCategory_fold _ Hok) as (r & -> & Hr).
      by exists r.
    + exists ∅. split; [done|]. intros key.
      by rewrite (ownProperties_falsy _ Htruthy), !lookup_empty.
  - exists ∅. split; [done|]. intros key. by rewrite !lookup_empty.
Qed.

Lemma userOnly_elem paths path :
  path ∈ userOnly paths ↔ path ∈ paths ∧ startsWith path "Packages/" = false.
Proof.
  unfold userOnly. rewrite !list_elem_of_In, filter_In.
  by rewrite negb_true_iff.
Qed.

Lemma userOnly_sublist paths : sublist (userOnly paths) paths.
Proof.
  induction paths as [|p paths IH]; simpl; [done|].
  destruct (negb _); by constructor.
Qed.

(** X23: an [editorState] frame whose asset categories are arrays of paths
    replaces the mirrored snapshot wholesale: the new snapshot is the same
    whatever the state before, and nothing else of the state changes.  Its
    four plain fields are those of the frame, or their defaults where the
    frame has none or a falsy one.  Each array category under a key other
    than [__proto__] is mirrored as its paths without those that start with
    [Packages/], the others in their order; the mirror holds no other
    category, and none under the key [__proto__]. *)
Theorem editorState_frame_replaces_snapshot now payload s :
  wellTyped payload →
  let frame := WsMessage (EditorStateMessage (Some (JObj payload))) in
  let s' := step now frame s in
  let mirrored name fallback :=
    match payload !! name with
    | Some value => if truthy (Some value) then value else fallback
    | None => fallback
    end in
  (∀ now0 s0, editorState (step now0 frame s0) = editorState s') ∧
  s' = set_editorState (editorState s') s ∧
  activeGameObjects (editorState s') = mirrored "activeGameObjects" (JArr []) ∧
  selectedObjects (editorState s') = mirrored "selectedObjects" (JArr []) ∧
  playModeState (editorState s') = mirrored "playModeState" (JStr "Stopped") ∧
  sceneHierarchy (editorState s') = mirrored "sceneHierarchy" (JObj ∅) ∧
  (∀ key paths,
     key ≠ "__proto__" →
     categories payload !! key = Some (JArr (JStr <$> paths)) →
     projectStructure (editorState s') !! key = Some (userOnly paths)) ∧
  (∀ key kept,
     projectStructure (editorState s') !! key = Some kept →
     key ≠ "__proto__" ∧
     ∃ paths, categories payload !! key = Some (JArr (JStr <$> paths)) ∧
              kept = userOnly paths ∧
              sublist kept paths ∧
              ∀ path, path ∈ kept ↔
                      path ∈ paths ∧ startsWith path "Packages/" = false) ∧
  projectStructure (editorState s') !! "__proto__" = None.
Proof.
  intros Hok frame s' mirrored. subst frame s' mirrored.
  destruct (editorState_frame now payload s Hok) as (r & -> & Hr).
  split_and!.
  - intros now0 s0.
    destruct (editorState_frame now0 payload s0 Hok) as (r0 & -> & Hr0).
    simpl. do 2 f_equal. apply map_eq. intros key. by rewrite Hr, Hr0.
  - done.
  - unfold or_else. simpl. by destruct (payload !! _).
  - unfold or_else. simpl. by destruct (payload !! _).
  - unfold or_else. simpl. by destruct (payload !! _).
  - unfold or_else. simpl. by destruct (payload !! _).
  - intros key paths Hkey Hcat. simpl. rewrite Hr, Hcat. simpl.
    destruct (String.eqb_spec key "__proto__") as [?|_]; [done|].
    apply userPaths_strings.
  - intros key kept. simpl. rewrite Hr. intros Hkept.
    destruct (categories payload !! key) as [[| | | |l|]|] eqn:Hcat; try done.
    simpl in Hkept.
    destruct (String.eqb_spec key "__proto__") as [?|Hkey]; [done|].
    split; [done|].
    assert (Hl : forallb isString l) by apply (Hok key _ Hcat).
    destruct (strings_of_array l Hl) as [paths ->].
    rewrite userPaths_strings in Hkept. simplify_eq.
    exists paths. split_and!; [done|done|apply userOnly_sublist|].
    intros path. apply userOnly_elem.
  - simpl. rewrite Hr.
    by destruct (categories payload !! "__proto__") as [[| | | |l|]|].
Qed.

(** C10: an [editorState] frame whose asset categories are arrays of paths
    or not arrays at all is mirrored with the default of every top-level
    field it lacks (the empty list for [activeGameObjects] and
    [selectedObjects], ['Stopped'] for [playModeState], the empty object
    for [sceneHierarchy], no category for [projectStructure]), and without
    any category whose value is not an array. *)
Theorem C10_editorState_defaults now payload s :
  wellTyped payload →
  let st := editorState
    (step now (WsMessage (EditorStateMessage (Some (JObj payload)))) s) in
  (payload !! "activeGameObjects" = None → activeGameObjects st = JArr []) ∧
  (payload !! "selectedObjects" = None → selectedObjects st = JArr []) ∧
  (payload !! "playModeState" = None → playModeState st = JStr "Stopped") ∧
  (payload !! "sceneHierarchy" = None → sceneHierarchy st = JObj ∅) ∧
  (payload !! "projectStructure" = None → projectStructure st = ∅) ∧
  (∀ key value,
     categories payload !! key = Some value → isArray value = false →
     projectStructure st !! key = None).
Proof.
  intros Hok st. subst st.
  destruct (editorState_frame now payload s Hok) as (r & -> & Hr). simpl.
  split_and!; try (by intros ->).
  - intros Hnone. apply map_eq. intros key.
    rewrite Hr. unfold categories. by rewrite Hnone, !lookup_empty.
  - intros key value Hcat Hna. rewrite Hr, Hcat. by destruct value.
Qed.

(** ** The command coordinator *)

Lemma validCode_truthy code :
  validCode code → truthy (Some (JStr code)) = true.
Proof. by destruct code. Qed.

Lemma callTool_execute now code s ws :
  unityConnection s = Some ws → validCode code →
  callTool now (executeRequest code) s
  = (Ok (Pending (length (calls s))), dispatched now ws code s).
Proof.
  intros Hws Hcode.
  unfold callTool, gets, mbind, M_bind. rewrite Hws. simpl.
  pose proof (validCode_truthy _ Hcode) as Htruthy. simpl in Htruthy.
  unfold executeEditorCommand. simpl. rewrite Htruthy. simpl.
  destruct (Nat.eqb_spec (String.length (trim code)) 0) as [Hz|_]; [done|].
  reflexivity.
Qed.

(** A tool call leaves the state alone unless it dispatches a command. *)
Lemma callTool_state now request s :
  (callTool now request s).2 = s ∨
  ∃ ws code, unityConnection s = Some ws ∧
             (callTool now request s).2 = dispatched now ws code s.
Proof.
  unfold callTool, gets, throw, mbind, M_bind.
  destruct (unityConnection s) as [ws|] eqn:Hws; simpl; [|by left].
  destruct (negb _); [by left|].
  destruct (String.eqb _ "get_editor_state").
  { left. unfold getEditorState, gets, throw, mbind, mret, M_bind, M_ret.
    destruct (_ && _); [done|].
    by repeat (destruct (String.eqb _ _)). }
  destruct (String.eqb _ "execute_editor_command").
  { unfold executeEditorCommand, gets, modify, throw, mbind, mret, M_bind, M_ret.
    destruct (negb _); [by left|].
    destruct (arg_code _) as [[| | |code| |]|]; try by left.
    destruct (_ =? _)%nat; [by left|].
    right. by exists ws, code. }
  destruct (String.eqb _ "get_logs"); [|by left].
  left. by destruct (getLogs_pure (arguments request) s) as [logs ->].
Qed.

(** [resume] changes nothing but the status of a waiting invocation. *)
Lemma resume_state now call outcome s :
  resume now call outcome s = s ∨
  ∃ i d status, calls s !! call = Some (Awaiting i d) ∧ settled status ∧
    (∀ msg, outcome = inl msg → status = Failed (executeCatch msg)) ∧
    (∀ data, outcome = inr data → ∃ logs t, status = Completed (CommandResult data logs t)) ∧
    resume now call outcome s = set_calls (<[call := status]> (calls s)) s.
Proof.
  unfold resume.
  destruct (calls s !! call) as [[i d| |]|] eqn:Hcall; try by left.
  right. destruct outcome as [msg|data].
  - exists i, d, (Failed (executeCatch msg)).
    split_and!; try done. by intros ? [= <-].
  - eexists i, d, (Completed (CommandResult data _ _)).
    split_and!; try done. intros ? [= <-]. by eexists _, _.
Qed.

Lemma executeCatch_timeout : executeCatch timeoutMessage = timeoutError.
Proof. reflexivity. Qed.

Lemma timerFired_due now c i d s :
  calls s !! c = Some (Awaiting i d) → d ≤ now →
  timerFired now c s = set_calls (<[c := Failed timeoutError]> (calls s)) s.
Proof.
  intros Hc Hd. unfold timerFired. rewrite Hc.
  destruct (Z.leb_spec d now); [|lia].
  unfold resume. by rewrite Hc.
Qed.

(** [resume] touches [calls] only, and keeps its length. *)
Lemma resume_fields now c outcome s :
  unityConnection (resume now c outcome s) = unityConnection s ∧
  editorState (resume now c outcome s) = editorState s ∧
  logBuffer (resume now c outcome s) = logBuffer s ∧
  commandResultPromise (resume now c outcome s) = commandResultPromise s ∧
  commandStartTime (resume now c outcome s) = commandStartTime s ∧
  sent (resume now c outcome s) = sent s ∧
  length (calls (resume now c outcome s)) = length (calls s).
Proof.
  destruct (resume_state now c outcome s)
    as [->|(i & d & status & _ & _ & _ & _ & ->)]; [done|].
  simpl. by rewrite length_insert.
Qed.

(** The loop over the categories only ever stores filtered arrays. *)
Lemma filterCategory_fold_userOnly (m : gmap string JSON) r :
  map_fold filterCategory (Some ∅) m = Some r →
  ∀ key kept, r !! key = Some kept → ∃ paths, kept = userOnly paths.
Proof.
  revert r.
  apply (map_fold_weak_ind
    (λ acc m, ∀ r, acc = Some r →
              ∀ key kept, r !! key = Some kept → ∃ paths, kept = userOnly paths)).
  - intros r [= <-] key kept. by rewrite lookup_empty.
  - intros i x m' acc _ IH r Hr key kept Hkept.
    unfold filterCategory in Hr. destruct acc as [filtered|]; [|done].
    simpl in Hr.
    destruct x as [| | | |l|]; simplify_eq; try by eapply IH.
    unfold userPaths in Hr.
    destruct (mapM asString l) as [paths|] eqn:Hpaths; simplify_eq/=.
    destruct (String.eqb i "__proto__"); [by eapply IH|].
    destruct (decide (i = key)) as [->|Hne].
    + rewrite lookup_insert_eq in Hkept. simplify_eq. by exists paths.
    + rewrite lookup_insert_ne in Hkept by done. by eapply IH.
Qed.

(** Any [editorState] frame, well formed or not, leaves the state as it
    was or replaces the snapshot by one whose categories are filtered. *)
Lemma storeEditorState_any data s :
  (storeEditorState data s).2 = s ∨
  ∃ st, filteredSnapshot st ∧ (storeEditorState data s).2 = set_editorState st s.
Proof.
  unfold storeEditorState, orTypeError, getProperty,
    modify, throw, mbind, mret, M_bind, M_ret.
  assert (Hempty : ∀ key (kept : list string),
            (∅ : gmap string (list string)) !! key = Some kept →
            ∃ paths, kept = userOnly paths)
    by (intros key kept; by rewrite lookup_empty).
  destruct data as [[| | | | |m]|]; simpl; try (by left);
    try (right; eexists; split; [|reflexivity]; exact Hempty).
  destruct (m !! "projectStructure") as [v|];
    [|right; eexists; split; [|reflexivity]; exact Hempty].
  destruct (truthy (Some v));
    [|right; eexists; split; [|reflexivity]; exact Hempty].
  destruct (filterProjectStructure v) as [r|] eqn:Hr; simpl; [|by left].
  right. eexists. split; [|reflexivity]. unfold filteredSnapshot. simpl.
  by apply (filterCategory_fold_userOnly _ _ Hr).
Qed.

Lemma executeEditorCommand_cases now ws args s :
  (∃ code, arg_code args = Some (JStr code) ∧ validCode code ∧
           executeEditorCommand now ws args s
           = (Ok (Pending (length (calls s))), dispatched now ws code s)) ∨
  (∃ e, executeEditorCommand now ws args s = (Throw (Mcp e), s) ∧
        errCode e = InvalidParams ∧
        ¬ ∃ code, arg_code args = Some (JStr code) ∧ validCode code).
Proof.
  unfold executeEditorCommand, validCode, gets, modify, throw, mbind, mret,
    M_bind, M_ret.
  destruct (arg_code args) as [[| |n|code| |]|] eqn:Hcode; simpl;
    try (right; eexists; split_and!; [reflexivity|done|];
         by intros (? & ? & ?)).
  - destruct b; right; (eexists; split_and!; [reflexivity|done|]);
      by intros (? & ? & ?).
  - destruct (n =? 0); right; (eexists; split_and!; [reflexivity|done|]);
      by intros (? & ? & ?).
  - destruct (String.eqb_spec code EmptyString) as [->|Hne]; simpl.
    { right. eexists; split_and!; [reflexivity|done|].
      intros (? & [= <-] & Hv). by apply Hv. }
    destruct (Nat.eqb_spec (String.length (trim code)) 0) as [Hz|Hnz].
    + right. eexists; split_and!; [reflexivity|done|].
      intros (? & [= <-] & Hv). by apply Hv.
    + left. by exists code.
Qed.

Lemma inserts_app {A} cap (buf es es' : list A) :
  inserts cap buf (es ++ es') = inserts cap (inserts cap buf es) es'.
Proof. unfold inserts. by rewrite foldl_app. Qed.

Lemma inserts_length {A} cap (buf es : list A) :
  (length buf ≤ cap → length (inserts cap buf es) ≤ cap)%nat.
Proof.
  intros Hbuf. induction es as [|e es IH] using rev_ind; [done|].
  rewrite inserts_snoc. by apply pushEvict_length.
Qed.

Lemma loggedIn_app msgs msgs' :
  loggedIn (msgs ++ msgs') = loggedIn msgs ++ loggedIn msgs'.
Proof. unfold loggedIn. apply omap_app. Qed.

(** ** What the handlers of a turn do *)

Lemma HandledBy_nil s : HandledBy [] s s.
Proof. by constructor; try done; left. Qed.

Lemma HandledBy_app msgs msgs' s handled handled' :
  HandledBy msgs s handled → HandledBy msgs' handled handled' →
  HandledBy (msgs ++ msgs') s handled'.
Proof.
  intros [Hc Ht Hcalls Hsent Hlog Hmirror] [Hc' Ht' Hcalls' Hsent' Hlog' Hmirror'].
  constructor; try congruence.
  - by rewrite Hlog', Hlog, loggedIn_app, inserts_app.
  - destruct Hmirror' as [Heq|[Hex Hfiltered]].
    + rewrite Heq. destruct Hmirror as [?|[Hex Hfiltered]]; [by left|].
      right. split; [|done]. apply Exists_app. by left.
    + right. split; [|done]. apply Exists_app. by right.
Qed.

(** The handler of one frame. *)
Lemma onMessage_handled msg s woken :
  HandledBy [msg] s (onMessage msg (s, woken)).1 ∧
  ((commandResultPromise (onMessage msg (s, woken)).1 = commandResultPromise s ∧
    (onMessage msg (s, woken)).2 = woken ∧
    (commandResultPromise s = None ∨ ¬ isResultFrame msg)) ∨
   (∃ c data, isResultFrame msg ∧
              commandResultPromise s = Some c ∧
              commandResultPromise (onMessage msg (s, woken)).1 = None ∧
              (onMessage msg (s, woken)).2 = woken ++ [(c, data)])).
Proof.
  destruct msg as [data|data|entry|].
  - rewrite onMessage_editorState. simpl.
    destruct (storeEditorState_any data s) as [->|(st & Hst & ->)].
    + split; [|left; split_and!; [done|done|by right; intros []]].
      by constructor; try done; left.
    + split; [|left; split_and!; [done|done|by right; intros []]].
      constructor; try done. right. split; [|done].
      by apply Exists_cons_hd.
  - rewrite onMessage_result.
    destruct (commandResultPromise s) as [c|] eqn:Hslot; simpl.
    + split; [by constructor; try done; left|].
      right. by exists c, data.
    + split; [by constructor; try done; left|].
      left. rewrite Hslot. by split_and!; [| |left].
  - rewrite onMessage_log. simpl.
    split; [|left; split_and!; [done|done|by right; intros []]].
    by constructor; try done; left.
  - rewrite onMessage_unknown. simpl.
    split; [|left; split_and!; [done|done|by right; intros []]].
    by constructor; try done; left.
Qed.

(** The handlers of the frames of a turn, one after the other: at most
    one invocation is woken, by the first result frame when the slot is
    occupied, and the frames after it find the slot empty. *)
Lemma onMessages_handled msgs s woken :
  let handled := foldl (λ acc msg, onMessage msg acc) (s, woken) msgs in
  HandledBy msgs s handled.1 ∧
  ((commandResultPromise handled.1 = commandResultPromise s ∧
    handled.2 = woken ∧
    (commandResultPromise s = None ∨ Forall (λ msg, ¬ isResultFrame msg) msgs)) ∨
   (∃ c data, Exists isResultFrame msgs ∧
              commandResultPromise s = Some c ∧
              commandResultPromise handled.1 = None ∧
              handled.2 = woken ++ [(c, data)])).
Proof.
  revert s woken. induction msgs as [|msg msgs IH]; intros s woken; simpl.
  { split; [apply HandledBy_nil|]. left. by split_and!; [| |right]. }
  destruct (onMessage_handled msg s woken) as [Hfirst Hwoken].
  destruct (onMessage msg (s, woken)) as [s1 woken1] eqn:Hon. simpl in *.
  destruct (IH s1 woken1) as [Hrest Hwoken'].
  split; [by apply (HandledBy_app [msg] msgs s s1)|].
  destruct Hwoken as [(Hslot & -> & Hside)|(c & data & Hres & Hc & Hnone & ->)].
  - destruct Hwoken' as [(Hslot' & -> & Hside')|(c & data & Hex & Hc & Hnone & ->)].
    + left. split_and!; [congruence|done|].
      destruct Hside as [?|Hnot]; [by left|].
      destruct Hside' as [Hnone|Hall]; [left; congruence|].
      right. by constructor.
    + right. exists c, data. split_and!; [by apply Exists_cons_tl|congruence|done|done].
  - destruct Hwoken' as [(Hslot' & -> & _)|(c' & ? & _ & Hc' & _)]; [|congruence].
    right. exists c, data.
    split_and!; [by apply Exists_cons_hd|done|congruence|done].
Qed.

Lemma notCommandResult_frames now ev :
  Forall (λ msg, ¬ isResultFrame msg) (framesOf ev) → notCommandResult (now, ev).
Proof.
  unfold notCommandResult.
  destruct ev as [?|msg|?|?|?|msgs]; simpl; try done.
  destruct msg; try done. intros Hall. inversion Hall as [|? ? Hnot].
  by destruct Hnot.
Qed.

Lemma commandResult_frames now ev :
  Exists isResultFrame (framesOf ev) → ¬ notCommandResult (now, ev).
Proof.
  unfold notCommandResult.
  destruct ev as [?|msg|?|?|?|msgs]; simpl; try by intros ?%Exists_nil.
  - intros [Hres|?%Exists_nil]%Exists_cons; [|done].
    destruct msg; simpl in *; tauto.
  - intros Hex Hall. apply Exists_exists in Hex as (msg & Hin & Hres).
    rewrite Forall_forall in Hall. by apply (Hall msg Hin).
Qed.

(** A turn that delivers frames. *)
Lemma deliver_effect now ev s :
  Effect now ev s (deliver now (framesOf ev) s).
Proof.
  unfold deliver.
  destruct (onMessages_handled (framesOf ev) s [])
    as [Hhandled [(Hslot & -> & Hside)|(c & data & Hex & Hc & Hnone & ->)]].
  - simpl. apply eff_frames; [done|done|].
    destruct Hside as [?|Hall]; [by left|]. right.
    by apply notCommandResult_frames.
  - simpl. eapply eff_result; [done| |done|done|done].
    by apply commandResult_frames.
Qed.

(** Every step has one of the seven effects. *)
Lemma step_effect now ev s : Effect now ev s (step now ev s).
Proof.
  destruct ev as [ws|msg|ws|request|c|msgs].
  - by eapply eff_connection.
  - apply (deliver_effect now (WsMessage msg)).
  - by eapply eff_close.
  - simpl. unfold callTool, gets, throw, mbind, M_bind.
    destruct (unityConnection s) as [ws|] eqn:Hws; simpl; [|by apply eff_none].
    destruct (negb _); [by apply eff_none|].
    destruct (String.eqb _ "get_editor_state") eqn:Hstate.
    { apply eff_none.
      unfold getEditorState, gets, throw, mbind, mret, M_bind, M_ret.
      destruct (_ && _); [done|].
      by repeat (destruct (String.eqb _ _)). }
    destruct (String.eqb_spec (name request) "execute_editor_command") as [Hname|_].
    { destruct (executeEditorCommand_cases now ws (arguments request) s)
        as [(code & Hcode & Hvalid & ->)|(e & -> & _)].
      - by eapply eff_dispatch.
      - by apply eff_none. }
    destruct (String.eqb _ "get_logs"); [|by apply eff_none].
    apply eff_none. by destruct (getLogs_pure (arguments request) s) as [logs ->].
  - simpl. unfold timerFired.
    destruct (calls s !! c) as [[i d| |]|] eqn:Hc; try by apply eff_none.
    destruct (Z.leb_spec d now) as [Hd|_]; [|by apply eff_none].
    eapply eff_timeout; [done|done|done|].
    unfold resume. by rewrite Hc.
  - apply (deliver_effect now (WsMessages msgs)).
Qed.

(** Every step is one of the five the coordinator knows. *)
Lemma step_coordinator now ev s : CoordinatorStep now ev s (step now ev s).
Proof.
  destruct (step_effect now ev s)
    as [->|? _ ->|? _ ->|Hhandled Hslot _|handled c data Hhandled Hres Hc Hnone ->
       |ws code request Hev _ _ _ _ ->|c i d Hev Hc Hd ->].
  - by apply cs_idle.
  - by apply cs_idle.
  - by apply cs_idle.
  - apply cs_idle; [by destruct Hhandled|done].
  - destruct Hhandled as [_ _ Hcalls _ _ _].
    destruct (resume_fields now c (inr data) handled) as (_ & _ & _ & Hslot & _).
    destruct (resume_state now c (inr data) handled)
      as [->|(i & d & status & Hcall & _ & _ & Hdata & Heq)].
    + by eapply cs_late_result.
    + destruct (Hdata data eq_refl) as (logs & t & ->).
      eapply cs_result; [done|done| | |].
      * by rewrite <- Hcalls.
      * by rewrite Hslot.
      * rewrite Heq. simpl. by rewrite Hcalls.
  - by eapply cs_dispatch.
  - by eapply cs_timeout.
Qed.

(** A settled invocation stays as it is: the race settles once. *)
Lemma step_settled now ev s c status :
  calls s !! c = Some status → settled status →
  calls (step now ev s) !! c = Some status.
Proof.
  intros Hc Hsettled.
  destruct (step_coordinator now ev s)
    as [Hcalls _|c' _ _ _ Hcalls|c' data i d logs t _ _ Hc' _ Hcalls
       |ws code request _ ->|c' i d _ Hc' _ Hcalls _].
  - by rewrite Hcalls.
  - by rewrite Hcalls.
  - rewrite Hcalls. rewrite list_lookup_insert_ne; [done|].
    intros ->. rewrite Hc in Hc'. by simplify_eq.
  - simpl. by apply lookup_app_l_Some.
  - rewrite Hcalls. rewrite list_lookup_insert_ne; [done|].
    intros ->. rewrite Hc in Hc'. by simplify_eq.
Qed.

Lemma run_settled evs s c status :
  calls s !! c = Some status → settled status →
  calls (run evs s) !! c = Some status.
Proof.
  revert s. induction evs as [|[now ev] evs IH]; intros s Hc Hs; [done|].
  simpl. apply IH; [|done]. by apply step_settled.
Qed.

(** Without a result frame, a waiting invocation keeps waiting or times
    out, and an occupied slot stays occupied. *)
Lemma step_no_result now ev s c i d :
  notCommandResult (now, ev) →
  calls s !! c = Some (Awaiting i d) →
  (calls (step now ev s) !! c = Some (Awaiting i d) ∨
   calls (step now ev s) !! c = Some (Failed timeoutError)) ∧
  (is_Some (commandResultPromise s) →
   is_Some (commandResultPromise (step now ev s))).
Proof.
  intros Hev Hc.
  destruct (step_coordinator now ev s)
    as [Hcalls Hslot|c' Hres _ _ Hcalls|c' data i' d' logs t Hres _ Hc' _ Hcalls
       |ws code request _ ->|c' i' d' _ Hc' _ Hcalls Hslot];
    try (by destruct Hres).
  - rewrite Hcalls, Hslot. by split; [left|].
  - simpl. split; [left; by apply lookup_app_l_Some|by eauto].
  - rewrite Hcalls, Hslot. split; [|done].
    destruct (decide (c' = c)) as [->|Hne].
    + right. apply list_lookup_insert_eq. by eapply lookup_lt_Some.
    + left. by rewrite list_lookup_insert_ne.
Qed.

Lemma run_no_result evs s c i d :
  Forall notCommandResult evs →
  calls s !! c = Some (Awaiting i d) →
  (calls (run evs s) !! c = Some (Awaiting i d) ∨
   calls (run evs s) !! c = Some (Failed timeoutError)) ∧
  (is_Some (commandResultPromise s) →
   is_Some (commandResultPromise (run evs s))).
Proof.
  intros Hevs. revert s.
  induction Hevs as [|[now ev] evs Hev Hevs IH]; intros s Hc; [by split; [left|]|].
  simpl. destruct (step_no_result now ev s c i d Hev Hc) as [[Hw|Hf] Hslot].
  - destruct (IH _ Hw) as [Hcalls Hslot']. split; [done|]. auto.
  - split; [right; by apply run_settled|].
    intros Hs. specialize (Hslot Hs). clear -Hslot Hevs.
    revert Hslot. generalize (step now ev s). clear s.
    induction Hevs as [|[now' ev'] evs Hev' Hevs IH]; intros s Hs; [done|].
    simpl. apply IH.
    destruct (step_coordinator now' ev' s)
      as [_ Hslot|? Hres _ _ _|? ? ? ? ? ? Hres _ _ _ _|? ? ? _ ->
         |? ? ? _ _ _ _ Hslot];
      try (by destruct Hres); try done; by rewrite Hslot.
Qed.

(** An invocation that waits while the slot holds another one is out of
    reach of every result frame: only its timer can end it. *)
Lemma step_stranded now ev s c i d :
  commandResultPromise s ≠ Some c →
  calls s !! c = Some (Awaiting i d) →
  commandResultPromise (step now ev s) ≠ Some c ∧
  (calls (step now ev s) !! c = Some (Awaiting i d) ∨
   calls (step now ev s) !! c = Some (Failed timeoutError)).
Proof.
  intros Hslot Hc. pose proof (lookup_lt_Some _ _ _ Hc) as Hlt.
  destruct (step_coordinator now ev s)
    as [Hcalls Hslot'|c' _ _ Hslot' Hcalls
       |c' data i' d' logs t _ Hs Hc' Hslot' Hcalls
       |ws code request _ ->|c' i' d' _ Hc' _ Hcalls Hslot'].
  - rewrite Hcalls, Hslot'. by split; [|left].
  - rewrite Hcalls, Hslot'. by split; [|left].
  - rewrite Hcalls, Hslot'. split; [done|left].
    rewrite list_lookup_insert_ne; [done|]. intros ->. by rewrite Hs in Hslot.
  - simpl. split; [intros [= Heq]; lia|left; by apply lookup_app_l_Some].
  - rewrite Hcalls, Hslot'. split; [done|].
    destruct (decide (c' = c)) as [->|Hne].
    + right. by apply list_lookup_insert_eq.
    + left. by rewrite list_lookup_insert_ne.
Qed.

Lemma run_stranded evs s c i d :
  commandResultPromise s ≠ Some c →
  calls s !! c = Some (Awaiting i d) →
  calls (run evs s) !! c = Some (Awaiting i d) ∨
  calls (run evs s) !! c = Some (Failed timeoutError).
Proof.
  revert s. induction evs as [|[now ev] evs IH]; intros s Hslot Hc; [by left|].
  simpl. destruct (step_stranded now ev s c i d Hslot Hc) as [Hslot' [Hw|Hf]].
  - by apply IH.
  - right. by apply run_settled.
Qed.

(** In every state the server can reach the buffer is within its capacity
    and the slot, when occupied, names an invocation that exists. *)
Lemma reachable_invariant s :
  reachable s →
  (length (logBuffer s) ≤ maxLogBufferSize)%nat ∧
  ∀ c, commandResultPromise s = Some c → (c < length (calls s))%nat.
Proof.
  induction 1 as [|now ev s _ [IHbuf IHslot]].
  - split; [simpl; unfold maxLogBufferSize; lia|done].
  - split.
    + destruct (step_effect now ev s)
        as [->|? _ ->|? _ ->|Hhandled _ _|handled c data Hhandled _ _ _ ->
           |? ? ? _ _ _ _ _ ->|? ? ? _ _ _ ->]; try done.
      * destruct Hhandled as [_ _ _ _ -> _]. by apply inserts_length.
      * destruct (resume_fields now c (inr data) handled) as (_ & _ & -> & _).
        destruct Hhandled as [_ _ _ _ -> _]. by apply inserts_length.
    + intros c.
      destruct (step_coordinator now ev s)
        as [Hcalls Hslot|? _ _ Hslot _|? ? ? ? ? ? _ _ _ Hslot _
           |ws code request _ ->|c' i d _ _ _ Hcalls Hslot].
      * rewrite Hcalls, Hslot. apply IHslot.
      * by rewrite Hslot.
      * by rewrite Hslot.
      * simpl. intros [= <-]. rewrite length_app. simpl. lia.
      * rewrite Hcalls, Hslot, length_insert. apply IHslot.
Qed.

Lemma run_cons now ev evs s :
  run ((now, ev) :: evs) s = run evs (step now ev s).
Proof. done. Qed.

Lemma run_app evs evs' s : run (evs ++ evs') s = run evs' (run evs s).
Proof. unfold run. by rewrite foldl_app. Qed.

(** C1 (as amended): a call of [execute_editor_command] made while the slot
    holds a waiting invocation does not fail.  It sends its frame and puts
    its own invocation into the slot in place of the earlier one, which
    goes on waiting; the next result frame completes the later invocation
    and empties the slot, and whatever happens afterwards the earlier one
    can only end by its timeout. *)
Theorem C1_second_call_takes_slot now code s ws c i d :
  unityConnection s = Some ws →
  commandResultPromise s = Some c →
  calls s !! c = Some (Awaiting i d) →
  validCode code →
  let n := length (calls s) in
  let r := callTool now (executeRequest code) s in
  r.1 = Ok (Pending n) ∧
  sent r.2 = sent s ++ [(ws, ExecuteEditorCommand code)] ∧
  commandResultPromise r.2 = Some n ∧
  n ≠ c ∧
  calls r.2 !! c = Some (Awaiting i d) ∧
  calls r.2 !! n = Some (Awaiting (length (logBuffer s)) (now + timeoutMs)) ∧
  (∀ now' data,
     let s2 := step now' (WsMessage (CommandResultMessage data)) r.2 in
     (∃ logs t, calls s2 !! n = Some (Completed (CommandResult data logs t))) ∧
     calls s2 !! c = Some (Awaiting i d) ∧
     commandResultPromise s2 = None) ∧
  (∀ evs,
     calls (run evs r.2) !! c = Some (Awaiting i d) ∨
     calls (run evs r.2) !! c = Some (Failed timeoutError)).
Proof.
  intros Hws Hslot Hc Hcode n r. subst n r.
  rewrite (callTool_execute now code s ws Hws Hcode). cbn [fst snd].
  pose proof (lookup_lt_Some _ _ _ Hc) as Hlt.
  assert (Hold : (calls s ++ [Awaiting (length (logBuffer s)) (now + timeoutMs)]) !! c
                 = Some (Awaiting i d)) by by apply lookup_app_l_Some.
  assert (Hnew : (calls s ++ [Awaiting (length (logBuffer s)) (now + timeoutMs)])
                   !! length (calls s)
                 = Some (Awaiting (length (logBuffer s)) (now + timeoutMs))).
  { rewrite lookup_app_r by lia. by rewrite Nat.sub_diag. }
  split_and!; try done; try lia.
  - intros now' data. rewrite step_result_frame. simpl.
    unfold resume. simpl. rewrite Hnew. simpl. split_and!; [|  |done].
    + eexists _, _. apply list_lookup_insert_eq. rewrite length_app. simpl. lia.
    + rewrite list_lookup_insert_ne by lia. done.
  - intros evs. apply run_stranded; simpl; [|done].
    intros [= Heq]. lia.
Qed.

(** C2 (as amended): when the connection closes while a command is in
    flight, only [unityConnection] changes: the slot and the waiting
    invocation are as they were and no error is raised for the drop.  If no
    result frame comes before the timer of the invocation fires, the
    invocation fails with the timeout error, and nothing that happens
    later changes that outcome: it is settled once. *)
Theorem C2_close_leaves_command_waiting now ws s c i d :
  commandResultPromise s = Some c →
  calls s !! c = Some (Awaiting i d) →
  let s' := step now (WsClose ws) s in
  s' = set_unityConnection None s ∧
  unityConnection s' = None ∧
  commandResultPromise s' = Some c ∧
  calls s' !! c = Some (Awaiting i d) ∧
  ∀ evs now' evs',
    Forall notCommandResult evs → d ≤ now' →
    calls (run (evs ++ (now', TimerFired c) :: evs') s') !! c
    = Some (Failed timeoutError).
Proof.
  intros Hslot Hc s'. subst s'. simpl. split_and!; try done.
  intros evs now' evs' Hevs Hd.
  rewrite run_app. simpl. apply run_settled; [|done].
  destruct (run_no_result evs (set_unityConnection None s) c i d Hevs Hc)
    as [[Hw|Hf] _].
  - rewrite (timerFired_due now' c i d _ Hw Hd). simpl.
    apply list_lookup_insert_eq. by eapply lookup_lt_Some.
  - unfold timerFired. by rewrite Hf.
Qed.

(** C3 (as amended): a command for which no result frame arrives before
    its timer fires, 5000 ms after the call or later, fails with the
    timeout error, and a later call of [execute_editor_command] on a live
    connection dispatches: it is suspended like the first, sends its frame
    and takes the slot. *)
Theorem C3_timeout_fails_next_call_dispatches now code s ws evs now' :
  unityConnection s = Some ws →
  validCode code →
  Forall notCommandResult evs →
  now + timeoutMs ≤ now' →
  let c := length (calls s) in
  let r := callTool now (executeRequest code) s in
  let s2 := run (evs ++ [(now', TimerFired c)]) r.2 in
  timeoutMs = 5000 ∧
  r.1 = Ok (Pending c) ∧
  calls s2 !! c = Some (Failed timeoutError) ∧
  ∀ now'' ws' code',
    unityConnection s2 = Some ws' → validCode code' →
    let r' := callTool now'' (executeRequest code') s2 in
    r'.1 = Ok (Pending (length (calls s2))) ∧
    sent r'.2 = sent s2 ++ [(ws', ExecuteEditorCommand code')] ∧
    commandResultPromise r'.2 = Some (length (calls s2)).
Proof.
  intros Hws Hcode Hevs Hd c r s2. subst c r s2.
  rewrite (callTool_execute now code s ws Hws Hcode). simpl.
  set (s1 := dispatched now ws code s).
  assert (Hc : calls s1 !! length (calls s)
               = Some (Awaiting (length (logBuffer s)) (now + timeoutMs))).
  { simpl. rewrite lookup_app_r by lia. by rewrite Nat.sub_diag. }
  destruct (run_no_result evs s1 _ _ _ Hevs Hc) as [Hcalls _].
  rewrite run_app. simpl.
  split_and!; [done|done| |].
  - destruct Hcalls as [Hw|Hf].
    + rewrite (timerFired_due now' _ _ _ _ Hw Hd). simpl.
      apply list_lookup_insert_eq. by eapply lookup_lt_Some.
    + unfold timerFired. by rewrite Hf.
  - intros now'' ws' code' Hws' Hcode'.
    by rewrite (callTool_execute now'' code' _ ws' Hws' Hcode').
Qed.

End Proofs.

(** ** The theorems at concrete runs *)

(** C1, the claim as written fails: with one command in flight a second
    call is not rejected but suspended like the first and takes the slot,
    and the result frame that would have completed the first invocation
    leaves it waiting. *)
Lemma C1_counterexample :
  let r := @callTool noDates 1 (executeRequest "Selection.activeObject = null;")
                     busyState in
  let result := WsMessage (CommandResultMessage (Some (JBool true))) in
  commandResultPromise busyState = Some 0%nat ∧
  calls busyState !! 0%nat = Some (Awaiting 0 5000) ∧
  (∀ e, r.1 ≠ Throw e) ∧
  r.1 = Ok (Pending 1) ∧
  commandResultPromise r.2 = Some 1%nat ∧
  calls (@step noDates 2 result busyState) !! 0%nat
  = Some (Completed (CommandResult (Some (JBool true)) [] 2)) ∧
  calls (@step noDates 2 result r.2) !! 0%nat = Some (Awaiting 0 5000).
Proof. vm_compute. by split_and!. Qed.

Lemma C1_witness :
  let r := @callTool noDates 1 (executeRequest "Selection.activeObject = null;")
                     busyState in
  r.1 = Ok (Pending 1) ∧ commandResultPromise r.2 = Some 1%nat.
Proof.
  assert (Hcode : validCode "Selection.activeObject = null;")
    by (unfold validCode; simpl; lia).
  destruct (@C1_second_call_takes_slot noDates 1 _ busyState 1%nat 0%nat 0%nat 5000
              eq_refl eq_refl eq_refl Hcode) as (Hr & _ & Hslot & _).
  exact (conj Hr Hslot).
Defined.

(** C2, the claim as written fails: after the connection closes the
    command in flight still waits and the slot still holds it; what ends it
    is its timer, with the timeout error. *)
Lemma C2_counterexample :
  let s' := @step noDates 1 (WsClose 1) busyState in
  unityConnection s' = None ∧
  calls s' !! 0%nat = Some (Awaiting 0 5000) ∧
  commandResultPromise s' = Some 0%nat ∧
  calls (@step noDates 5000 (TimerFired 0) s') !! 0%nat
  = Some (Failed (mkMcpError InternalError timeoutMessage)).
Proof. vm_compute. by split_and!. Qed.

Lemma C2_witness :
  calls (@run noDates [(5000, TimerFired 0%nat)]
           (@step noDates 1 (WsClose 1) busyState)) !! 0%nat
  = Some (Failed timeoutError).
Proof.
  destruct (@C2_close_leaves_command_waiting noDates 1 1%nat busyState 0%nat 0%nat 5000
              eq_refl eq_refl) as (_ & _ & _ & _ & Hlater).
  apply (Hlater [] 5000 []); [constructor|lia].
Defined.

(** C3, the claim as written fails: after the timeout the slot is not
    empty, it still holds the invocation that timed out. *)
Lemma C3_counterexample :
  let s2 := @run noDates [(5000, TimerFired 0%nat)] busyState in
  calls s2 !! 0%nat = Some (Failed (mkMcpError InternalError timeoutMessage)) ∧
  commandResultPromise s2 = Some 0%nat ∧
  commandResultPromise s2 ≠ None.
Proof. vm_compute. by split_and!. Qed.

Lemma C3_witness :
  let s2 := @run noDates [(5000, TimerFired 0%nat)] busyState in
  calls s2 !! 0%nat = Some (Failed timeoutError) ∧
  (@callTool noDates 6000 (executeRequest "Debug.Log(2);") s2).1
  = Ok (Pending 1).
Proof.
  assert (Hnext : validCode "Debug.Log(2);") by (unfold validCode; simpl; lia).
  assert (Hcode : validCode "Debug.Log(1);") by (unfold validCode; simpl; lia).
  assert (Hdue : 0 + timeoutMs ≤ 5000) by (unfold timeoutMs; lia).
  destruct (@C3_timeout_fails_next_call_dispatches noDates 0 "Debug.Log(1);"
              connectedState 1%nat [] 5000 eq_refl Hcode (Forall_nil_2 _) Hdue)
    as (_ & _ & Hfailed & Hlater).
  destruct (Hlater 6000 1%nat "Debug.Log(2);" eq_refl Hnext) as (Hr & _).
  exact (conj Hfailed Hr).
Defined.

(** C5, the claim as written fails: of a buffer of 101 entries [get_logs]
    without options returns 100, not the whole buffer. *)
Lemma C5_counterexample :
  length (logBuffer chattyState) = 101%nat ∧
  (@callTool noDates 0 (mkRequest "get_logs" noArgs) chattyState).1
  ≠ Ok (Done (LogsResult (Entries (logBuffer chattyState)))) ∧
  (@callTool noDates 0 (mkRequest "get_logs" noArgs) chattyState).1
  = Ok (Done (LogsResult (Entries (drop 1 (logBuffer chattyState))))).
Proof.
  split_and!; [by vm_compute| |by vm_compute].
  intros Heq.
  apply (f_equal (λ r, match r with
                       | Ok (Done (LogsResult (Entries l))) => length l
                       | _ => 0%nat
                       end)) in Heq.
  vm_compute in Heq. discriminate.
Qed.

Lemma C5_witness :
  @callTool noDates 0 (mkRequest "get_logs" noArgs) chattyState
  = (Ok (Done (LogsResult
       (Entries (drop (length (logBuffer chattyState) - 100)
                      (logBuffer chattyState))))), chattyState).
Proof.
  apply (@C5_get_logs_default_last_100 noDates 0 chattyState 1%nat).
  reflexivity.
Defined.

(** C6, the code misses a case: a category under the key [__proto__] is an
    own property of the parsed frame and [Object.entries] lists it, but the
    assignment [filteredProjectStructure[key] = ...] runs the setter of
    [Object.prototype] for that key and stores no category.  Its path, which
    is not under [Packages/], is in no category of the mirror, while the
    category [scripts] beside it is mirrored without its package path. *)
Lemma C6_proto_category_not_mirrored :
  let structure : gmap string JSON :=
    <["__proto__" := JArr [JStr "Assets/Main.cs"]]>
    (<["scripts" := JArr [JStr "Assets/Foo.cs"; JStr "Packages/ugui/Bar.cs"]]> ∅) in
  let payload : gmap string JSON := <["projectStructure" := JObj structure]> ∅ in
  let s' := @step noDates 0 (WsMessage (EditorStateMessage (Some (JObj payload))))
                  connectedState in
  categories payload !! "__proto__" = Some (JArr [JStr "Assets/Main.cs"]) ∧
  startsWith "Assets/Main.cs" "Packages/" = false ∧
  projectStructure (editorState s') !! "__proto__" = None ∧
  projectStructure (editorState s') = {["scripts" := ["Assets/Foo.cs"]]}.
Proof. by vm_compute. Qed.

Lemma editorState_frame_replaces_snapshot_witness :
  let s' := @step noDates 0
              (WsMessage (EditorStateMessage (Some (JObj samplePayload))))
              initialState in
  playModeState (editorState s') = JStr "Stopped" ∧
  activeGameObjects (editorState s') = JArr [JStr "Main Camera"] ∧
  projectStructure (editorState s') !! "scripts"
  = Some ["Assets/Foo.cs"; "Assets/Baz.cs"].
Proof.
  assert (Hok : wellTyped samplePayload).
  { unfold wellTyped. apply (bool_decide_unpack _). by vm_compute. }
  destruct (@editorState_frame_replaces_snapshot noDates 0 samplePayload
              initialState Hok) as (_ & _ & Hactive & _ & Hplay & _ & Hkept & _).
  split_and!; [exact Hplay|exact Hactive|].
  apply (Hkept "scripts" ["Assets/Foo.cs"; "Packages/com.unity.ugui/Bar.cs";
                          "Assets/Baz.cs"]); [done|].
  by vm_compute.
Defined.

Lemma C7_witness :
  @callTool noDates 0 (executeRequest "noop") initialState
  = (Throw (Mcp notConnected), initialState) ∧
  sent (@step noDates 0 (CallTool (executeRequest "noop")) initialState) = [].
Proof.
  apply (@C7_execute_not_connected noDates 0 (codeArgs "noop") initialState).
  reflexivity.
Defined.

Lemma C9_witness :
  @callTool noDates 0 (mkRequest "get_editor_state" scriptsOnly) connectedState
  = (Ok (Done (ScriptsResult [])), connectedState).
Proof.
  assert (Hnone : projectStructure (editorState connectedState) !! "scripts" = None)
    by reflexivity.
  destruct (@C9_scripts_only_empty noDates connectedState Hnone) as [_ Hcall].
  apply (Hcall 0 1%nat). reflexivity.
Defined.

Lemma C10_witness :
  let st := editorState
    (@step noDates 0 (WsMessage (EditorStateMessage (Some (JObj samplePayload))))
           initialState) in
  playModeState st = JStr "Stopped" ∧
  sceneHierarchy st = JObj ∅ ∧
  projectStructure st !! "count" = None.
Proof.
  assert (Hok : wellTyped samplePayload).
  { unfold wellTyped. apply (bool_decide_unpack _). by vm_compute. }
  destruct (@C10_editorState_defaults noDates 0 samplePayload initialState Hok)
    as (_ & _ & Hplay & Hscene & _ & Hdrop).
  split_and!; [by apply Hplay|by apply Hscene|].
  apply (Hdrop "count" (JNum 3)); by vm_compute.
Defined.

(** ** Further runs of the model *)

(** [scripts only] on a mirror with a [scripts] category returns that
    category, package paths already stripped. *)
Example scripts_only_after_frame :
  (@callTool noDates 1 (mkRequest "get_editor_state" scriptsOnly)
     (@run noDates
        [(0, WsMessage (EditorStateMessage (Some (JObj samplePayload))))]
        connectedState)).1
  = Ok (Done (ScriptsResult ["Assets/Foo.cs"; "Assets/Baz.cs"])).
Proof. by vm_compute. Qed.

(** A frame with a category array that holds a number makes [startsWith]
    throw; the handler of the socket catches it and the mirror is as it
    was. *)
Example ill_typed_frame_ignored :
  let payload : gmap string JSON :=
    <["playModeState" := JStr "Playing"]>
    (<["projectStructure" := JObj (<["scripts" := JArr [JNum 1]]> ∅)]> ∅) in
  @step noDates 0 (WsMessage (EditorStateMessage (Some (JObj payload))))
        connectedState
  = connectedState.
Proof. by vm_compute. Qed.

(** A command that logs with the diagnostic tag, completed by its result
    frame after 3 ms; its timer fires later without effect. *)
Example command_round_trip :
  let s := @run noDates
    [(1, WsMessage (LogMessage (mkLogEntry "[UnityMCP] before" "" "Log" "t1")));
     (3, CallTool (executeRequest "Debug.Log(1);"));
     (4, WsMessage (LogMessage (mkLogEntry "[UnityMCP] during" "" "Log" "t2")));
     (5, WsMessage (LogMessage (mkLogEntry "untagged" "" "Warning" "t3")));
     (6, WsMessage (CommandResultMessage (Some (JStr "ok"))));
     (5003, TimerFired 0%nat)]
    connectedState in
  calls s = [Completed (CommandResult (Some (JStr "ok"))
                          [mkLogEntry "[UnityMCP] during" "" "Log" "t2"] 3)] ∧
  commandResultPromise s = None ∧
  sent s = [(1%nat, ExecuteEditorCommand "Debug.Log(1);")].
Proof. by vm_compute. Qed.

(** [get_logs] with a type filter, a count and a field selection. *)
Example get_logs_filtered :
  let s := @run noDates
    [(1, WsMessage (LogMessage (mkLogEntry "a" "" "Log" "t1")));
     (2, WsMessage (LogMessage (mkLogEntry "b" "" "Error" "t2")));
     (3, WsMessage (LogMessage (mkLogEntry "c" "" "Warning" "t3")));
     (4, WsMessage (LogMessage (mkLogEntry "d" "" "Log" "t4")))]
    connectedState in
  (@callTool noDates 5
     (mkRequest "get_logs"
        (mkToolArgs None None (Some ["Log"; "Error"]) (Some 2)
                    (Some ["logType"; "message"]) None None None None)) s).1
  = Ok (Done (LogsResult (Selected [[("logType", "Error"); ("message", "b")];
                                     [("logType", "Log"); ("message", "d")]]))).
Proof. by vm_compute. Qed.

(** * More of the behaviour of the server *)

Section More.

Context `{!DateParser}.

Lemma startsWith_spec path prefix :
  startsWith path prefix = true ↔ ∃ rest, path = prefix +:+ rest.
Proof.
  unfold startsWith. revert path.
  induction prefix as [|a prefix IH]; intros [|b path]; simpl.
  - split; [by exists EmptyString|done].
  - split; [by exists (String b path)|done].
  - split; [done|by intros [? ?]].
  - destruct (Ascii.ascii_dec a b) as [->|Hne].
    + rewrite IH. split; intros [rest Hrest]; exists rest.
      * by rewrite Hrest.
      * simpl in Hrest. by injection Hrest.
    + split; [done|]. intros [rest Hrest]. simpl in Hrest.
      injection Hrest as Hab _. by destruct Hne.
Qed.

(** ** The state mirror over whole runs *)

Lemma filteredSnapshot_packageFree st : filteredSnapshot st → packageFree st.
Proof.
  intros Hst key kept path Hkept Hpath.
  destruct (Hst key kept Hkept) as [paths ->].
  apply userOnly_elem in Hpath as [_ Hfalse].
  intros Hrest. apply startsWith_spec in Hrest. congruence.
Qed.

Lemma HandledBy_packageFree msgs s handled :
  HandledBy msgs s handled →
  packageFree (editorState s) → packageFree (editorState handled).
Proof.
  intros [_ _ _ _ _ [->|[_ Hst]]] Hfree; [done|].
  by apply filteredSnapshot_packageFree.
Qed.

(** X1: in every state the server can reach, whatever frames it was sent,
    no path of the mirrored project structure lies under [Packages/]. *)
Theorem mirror_never_holds_package_paths s :
  reachable s → packageFree (editorState s).
Proof.
  induction 1 as [|now ev s _ IH].
  - intros key paths path. simpl. by rewrite lookup_empty.
  - destruct (step_effect now ev s)
      as [->|? _ ->|? _ ->|Hhandled _ _|handled c data Hhandled _ _ _ ->
         |? ? ? _ _ _ _ _ ->|? ? ? _ _ _ ->]; try done.
    + by eapply HandledBy_packageFree.
    + destruct (resume_fields now c (inr data) handled) as (_ & -> & _).
      by eapply HandledBy_packageFree.
Qed.

Lemma notEditorState_frames now ev :
  notEditorState (now, ev) → ¬ Exists isEditorStateFrame (framesOf ev).
Proof.
  unfold notEditorState.
  destruct ev as [?|msg|?|?|?|msgs]; simpl; try by intros _ ?%Exists_nil.
  - intros Hnot [Hst|?%Exists_nil]%Exists_cons; [|done].
    destruct msg; simpl in *; tauto.
  - intros Hall Hex. apply Exists_exists in Hex as (msg & Hin & Hst).
    rewrite Forall_forall in Hall. by apply (Hall msg Hin).
Qed.

(** The steps that are no [editorState] frame keep the snapshot. *)
Lemma step_keeps_mirror now ev s :
  notEditorState (now, ev) →
  editorState (step now ev s) = editorState s.
Proof.
  intros Hev%notEditorState_frames.
  destruct (step_effect now ev s)
    as [->|? _ ->|? _ ->|Hhandled _ _|handled c data Hhandled _ _ _ ->
       |? ? ? _ _ _ _ _ ->|? ? ? _ _ _ ->]; try done.
  - by destruct Hhandled as [_ _ _ _ _ [?|[? _]]].
  - destruct (resume_fields now c (inr data) handled) as (_ & -> & _).
    by destruct Hhandled as [_ _ _ _ _ [?|[? _]]].
Qed.

(** X2: the snapshot changes with [editorState] frames only.  Over any run
    without such a frame (connections and closes, tool calls, logs,
    results, timers) the mirror keeps its snapshot, so after a reconnect
    [get_editor_state] still serves the snapshot of before. *)
Theorem mirror_changes_with_editorState_frames_only evs s :
  Forall notEditorState evs →
  editorState (run evs s) = editorState s ∧
  ∀ now ws, unityConnection (run evs s) = Some ws →
    callTool now (mkRequest "get_editor_state" noArgs) (run evs s)
    = (Ok (Done (EditorStateResult (editorState s))), run evs s).
Proof.
  intros Hevs.
  assert (Hsame : editorState (run evs s) = editorState s).
  { revert s. induction Hevs as [|[now ev] evs Hev _ IH]; intros s; [done|].
    change (run ((now, ev) :: evs) s) with (run evs (step now ev s)).
    rewrite IH. by apply step_keeps_mirror. }
  split; [done|]. intros now ws Hws.
  unfold callTool, gets, mbind, M_bind. rewrite Hws. simpl.
  unfold getEditorState, gets, mbind, mret, M_bind, M_ret. simpl.
  by rewrite Hsame.
Qed.

(** ** The log buffer over whole runs *)

Lemma inserts_from {A} cap (buf es : list A) :
  (length buf ≤ cap)%nat →
  inserts cap buf es = drop (length (buf ++ es) - cap) (buf ++ es).
Proof.
  intros Hbuf.
  induction es as [|e es IH] using rev_ind.
  - simpl. rewrite app_nil_r.
    by replace (length buf - cap)%nat with 0%nat by lia.
  - rewrite inserts_snoc, IH. unfold pushEvict.
    assert (Hk : (length (buf ++ es) - cap ≤ length (buf ++ es))%nat) by lia.
    rewrite (assoc_L (++)).
    rewrite <- (drop_app_le (buf ++ es) [e] _ Hk).
    rewrite length_drop, !length_app. simpl.
    destruct (Nat.ltb_spec cap (length buf + length es + 1
                                - (length buf + length es - cap))) as [Hlt|Hge].
    + rewrite drop_drop. f_equal. lia.
    + f_equal. lia.
Qed.

(** A turn that delivers frames appends what its [log] frames carry,
    whatever else it delivers. *)
Lemma deliver_logBuffer now msgs s :
  logBuffer (deliver now msgs s)
  = inserts maxLogBufferSize (logBuffer s) (loggedIn msgs).
Proof.
  unfold deliver.
  destruct (onMessages_handled msgs s [])
    as [Hhandled [(_ & -> & _)|(c & data & _ & _ & _ & ->)]]; simpl.
  - by destruct Hhandled.
  - destruct (resume_fields now c (inr data)
                (foldl (λ acc msg, onMessage msg acc) (s, []) msgs).1)
      as (_ & _ & -> & _).
    by destruct Hhandled.
Qed.

Lemma step_logBuffer_logged now ev s :
  logBuffer (step now ev s)
  = inserts maxLogBufferSize (logBuffer s) (loggedIn (framesOf ev)).
Proof.
  destruct ev as [ws|msg|ws|request|c|msgs];
    try apply (deliver_logBuffer now [msg]); try apply deliver_logBuffer.
  - done.
  - done.
  - simpl. by destruct (callTool_state now request s) as [->|(? & ? & _ & ->)].
  - simpl. unfold timerFired.
    destruct (calls s !! c) as [[i d| |]|]; try done.
    destruct (d <=? now); [|done].
    by destruct (resume_fields now c (inl timeoutMessage) s) as (_ & _ & -> & _).
Qed.

Lemma run_logBuffer evs s :
  logBuffer (run evs s)
  = inserts maxLogBufferSize (logBuffer s) (loggedBy evs).
Proof.
  revert s. induction evs as [|[now ev] evs IH]; intros s; [done|].
  change (run ((now, ev) :: evs) s) with (run evs (step now ev s)).
  rewrite IH, step_logBuffer_logged. symmetry. apply inserts_app.
Qed.

(** X3: after any run of the server from its start the log buffer holds
    the last 1000 entries the [log] frames of the run carried, in their
    order, whatever else happened in between. *)
Theorem log_buffer_is_tail_of_logged evs :
  logBuffer (run evs initialState)
  = drop (length (loggedBy evs) - maxLogBufferSize) (loggedBy evs).
Proof.
  rewrite run_logBuffer. simpl.
  by rewrite inserts_from by (simpl; lia).
Qed.

(** ** The command coordinator over whole runs *)

Lemma reachable_run evs s : reachable s → reachable (run evs s).
Proof.
  revert s. induction evs as [|[now ev] evs IH]; intros s Hs; [done|].
  change (run ((now, ev) :: evs) s) with (run evs (step now ev s)).
  apply IH. by constructor.
Qed.

(** The frames sent are the dispatch frames of the invocations. *)
Lemma reachable_sent s :
  reachable s →
  length (sent s) = length (calls s) ∧
  ∀ ws frame, (ws, frame) ∈ sent s →
    ∃ code, frame = ExecuteEditorCommand code ∧ validCode code.
Proof.
  induction 1 as [|now ev s _ [IHlen IHcode]].
  - split; [done|]. intros ws frame. simpl. by rewrite elem_of_nil.
  - destruct (step_effect now ev s)
      as [->|? _ ->|? _ ->|Hhandled _ _|handled c data Hhandled _ _ _ ->
         |ws code request _ _ _ _ Hvalid ->|c i d _ _ _ ->]; try done.
    + destruct Hhandled as [_ _ Hcalls Hsent _ _]. by rewrite Hcalls, Hsent.
    + destruct (resume_fields now c (inr data) handled)
        as (_ & _ & _ & _ & _ & -> & ->).
      destruct Hhandled as [_ _ Hcalls Hsent _ _]. by rewrite Hcalls, Hsent.
    + simpl. split; [rewrite !length_app; simpl; lia|].
      intros ws' frame [Hold|Hnew%list_elem_of_singleton]%elem_of_app.
      * by eapply IHcode.
      * simplify_eq. by exists code.
    + simpl. by rewrite length_insert.
Qed.

(** X4: the only frames the server ever sends are the dispatch frames of
    [execute_editor_command], one per invocation, and each carries code
    that is not blank. *)
Theorem one_frame_per_command s :
  reachable s →
  length (sent s) = length (calls s) ∧
  ∀ ws frame, (ws, frame) ∈ sent s →
    ∃ code, frame = ExecuteEditorCommand code ∧ validCode code.
Proof. apply reachable_sent. Qed.

Lemma result_frame_empties_slot now data s :
  commandResultPromise (step now (WsMessage (CommandResultMessage data)) s)
  = None.
Proof.
  rewrite step_result_frame.
  by destruct (commandResultPromise s) eqn:Hslot.
Qed.

Lemma result_frame_without_slot now data s :
  commandResultPromise s = None →
  step now (WsMessage (CommandResultMessage data)) s = s.
Proof.
  intros Hslot. by rewrite step_result_frame, Hslot.
Qed.

(** X5: a result frame that follows another result frame is discarded:
    the second one changes nothing, whatever the two carry. *)
Theorem duplicate_result_discarded now now' data data' s :
  let s1 := step now (WsMessage (CommandResultMessage data)) s in
  step now' (WsMessage (CommandResultMessage data')) s1 = s1.
Proof.
  intros s1. apply result_frame_without_slot. apply result_frame_empties_slot.
Qed.

(** X6: the loser of the race has no effect.  Once an invocation has
    returned or thrown, its timer changes nothing when it fires, and a
    result frame that finds this invocation in the slot only empties the
    slot. *)
Theorem settled_call_ignores_late_events now c status data s :
  calls s !! c = Some status →
  settled status →
  step now (TimerFired c) s = s ∧
  (commandResultPromise s = Some c →
   step now (WsMessage (CommandResultMessage data)) s
   = set_commandResultPromise None s).
Proof.
  intros Hc Hsettled. split.
  - simpl. unfold timerFired. rewrite Hc. by destruct status.
  - intros Hslot. rewrite step_result_frame, Hslot.
    unfold resume. rewrite Hc. by destruct status.
Qed.

Lemma run_log_frames (timed : list (Z * LogEntry)) s :
  run ((λ te, (te.1, WsMessage (LogMessage te.2))) <$> timed) s
  = set_logBuffer (inserts maxLogBufferSize (logBuffer s) timed.*2) s.
Proof.
  revert s. induction timed as [|[t e] timed IH]; intros s.
  - by destruct s.
  - rewrite fmap_cons. cbn [fst snd].
    rewrite run_cons, IH, step_log_frame. by destruct s.
Qed.

(** The handlers of a row of [log] frames. *)
Lemma onMessages_logs entries s woken :
  foldl (λ acc msg, onMessage msg acc) (s, woken) (LogMessage <$> entries)
  = (set_logBuffer (inserts maxLogBufferSize (logBuffer s) entries) s, woken).
Proof.
  revert s. induction entries as [|entry entries IH]; intros s.
  - by destruct s.
  - rewrite fmap_cons. simpl. rewrite onMessage_log, IH. by destruct s.
Qed.

Lemma inserts_within {A} cap (buf es : list A) :
  (length buf + length es ≤ cap)%nat →
  inserts cap buf es = buf ++ es.
Proof.
  intros Hle. rewrite inserts_from by lia.
  rewrite length_app.
  by replace (length buf + length es - cap)%nat with 0%nat by lia.
Qed.

(** X7: a command and its result.  On a live connection, with code that is
    not blank and room in the buffer for what is logged meanwhile, a call
    followed by turns that deliver a [log] frame each and then by a turn
    that delivers a result frame, with [log] frames before and after it,
    completes with the payload of the result frame, with those of the
    entries logged since the call whose message contains the tag
    [[UnityMCP]], in their order, and with the time between the call and
    that turn; the slot is empty again.  The entries that arrive in the
    turn of the result frame are reported too, those after the frame
    included: the rest of the handler runs when the turn has handled its
    frames.  What the slot held before the call plays no part.  The [log]
    frames carry entries of the declared type. *)
Theorem command_completes_with_result_and_tagged_logs
    now now' code data (timed : list (Z * LogEntry))
    (before after : list LogEntry) s ws :
  unityConnection s = Some ws →
  validCode code →
  (length (logBuffer s) + length timed + length before + length after
   ≤ maxLogBufferSize)%nat →
  let c := length (calls s) in
  let s1 := step now (CallTool (executeRequest code)) s in
  let s2 := run ((λ te, (te.1, WsMessage (LogMessage te.2))) <$> timed) s1 in
  let turn := (LogMessage <$> before)
              ++ CommandResultMessage data :: (LogMessage <$> after) in
  let s3 := step now' (WsMessages turn) s2 in
  calls s3 !! c
  = Some (Completed (CommandResult data
            (List.filter (λ log, includes (message log) "[UnityMCP]")
                         (timed.*2 ++ before ++ after))
            (now' - now))) ∧
  commandResultPromise s3 = None ∧
  logBuffer s3 = logBuffer s ++ timed.*2 ++ before ++ after ∧
  sent s3 = sent s ++ [(ws, ExecuteEditorCommand code)].
Proof.
  intros Hws Hcode Hroom c s1 s2 turn s3. subst c s1 s2 turn s3.
  assert (Hs1 : step now (CallTool (executeRequest code)) s
                = dispatched now ws code s).
  { simpl. by rewrite (callTool_execute now code s ws Hws Hcode). }
  rewrite Hs1, run_log_frames.
  change (step now' (WsMessages ?msgs) ?s0) with (deliver now' msgs s0).
  unfold deliver. rewrite foldl_app, onMessages_logs. simpl.
  rewrite onMessage_result. simpl. rewrite onMessages_logs. simpl.
  rewrite <- !inserts_app.
  rewrite inserts_within by (rewrite !length_app, length_fmap; lia).
  unfold resume. simpl.
  rewrite lookup_app_r by lia. rewrite Nat.sub_diag. simpl.
  split_and!; [|done|done|done].
  rewrite list_lookup_insert_eq by (rewrite length_app; simpl; lia).
  do 3 f_equal. unfold slice.
  destruct (Z.ltb_spec (Z.of_nat (length (logBuffer s))) 0) as [?|_]; [lia|].
  rewrite length_app.
  replace (Z.to_nat (Z.min _ _)) with (length (logBuffer s)) by lia.
  by rewrite drop_app_length.
Qed.

(** X8: when the buffer is full at the call, the command reports no logs.
    If [execute_editor_command] is called while the buffer holds its 1000
    entries, then whatever happens afterwards, the invocation, if it
    completes, completes with an empty list of logs. *)
Theorem full_buffer_command_reports_no_logs now code evs s ws data logs t :
  reachable s →
  unityConnection s = Some ws →
  validCode code →
  length (logBuffer s) = maxLogBufferSize →
  let c := length (calls s) in
  let s1 := step now (CallTool (executeRequest code)) s in
  calls (run evs s1) !! c = Some (Completed (CommandResult data logs t)) →
  logs = [].
Proof.
  intros Hreach Hws Hcode Hfull c s1. subst c s1.
  assert (Hs1 : reachable (step now (CallTool (executeRequest code)) s))
    by by constructor.
  revert Hs1. simpl. rewrite (callTool_execute now code s ws Hws Hcode). simpl.
  set (s1 := dispatched now ws code s). intros Hs1.
  assert (Hinv : ∀ s',
    reachable s' →
    (∃ d, calls s' !! length (calls s) = Some (Awaiting maxLogBufferSize d)) ∨
    (∃ status, calls s' !! length (calls s) = Some status ∧ settled status ∧
               ∀ data logs t, status = Completed (CommandResult data logs t) →
                              logs = []) →
    ∀ evs data logs t,
      calls (run evs s') !! length (calls s)
      = Some (Completed (CommandResult data logs t)) → logs = []).
  { clear. intros s' Hs' Hcall evs. revert s' Hs' Hcall.
    induction evs as [|[now ev] evs IH]; intros s' Hs' Hcall data logs t.
    - simpl. intros Hdone.
      destruct Hcall as [[d Hd]|(status & Hst & _ & Hlogs)]; [congruence|].
      rewrite Hst in Hdone. simplify_eq. by eapply Hlogs.
    - change (run ((now, ev) :: evs) s') with (run evs (step now ev s')).
      apply IH; [by constructor|].
      destruct Hcall as [[d Hd]|(status & Hst & Hsettled & Hlogs)].
      + pose proof (lookup_lt_Some _ _ _ Hd) as Hlt.
        destruct (reachable_invariant s' Hs') as [Hbound _].
        destruct (step_effect now ev s')
          as [->|? _ ->|? _ ->|Hhandled _ _
             |handled c' data' Hhandled _ _ _ ->
             |? ? ? _ _ _ _ _ ->|c' i' d' _ _ _ ->]; try (left; by eauto).
        * left. exists d. destruct Hhandled as [_ _ Hcalls _ _ _].
          by rewrite Hcalls.
        * destruct Hhandled as [_ _ Hcalls _ Hlog _].
          unfold resume. rewrite Hcalls.
          destruct (calls s' !! c') as [[i' d'| |]|] eqn:Hc'; simpl;
            try (left; exists d; by rewrite ?Hcalls).
          destruct (decide (c' = length (calls s))) as [->|Hne].
          -- right. eexists. rewrite list_lookup_insert_eq by done.
             split_and!; [done|done|]. intros ? ? ? [= _ <- _].
             rewrite Hd in Hc'. simplify_eq.
             pose proof (inserts_length maxLogBufferSize (logBuffer s')
                           (loggedIn (framesOf ev)) Hbound) as Hlen.
             rewrite <- Hlog in Hlen.
             unfold slice.
             destruct (Z.ltb_spec (Z.of_nat maxLogBufferSize) 0) as [?|_]; [lia|].
             rewrite drop_ge; [done|]. lia.
          -- left. exists d. by rewrite list_lookup_insert_ne.
        * simpl. left. exists d. by apply lookup_app_l_Some.
        * simpl. destruct (decide (c' = length (calls s))) as [->|Hne].
          -- right. eexists. rewrite list_lookup_insert_eq by done.
             by split_and!.
          -- left. exists d. by rewrite list_lookup_insert_ne.
      + right. exists status. split_and!; [|done|done].
        by apply step_settled. }
  apply (Hinv s1 Hs1). left. exists (now + timeoutMs).
  subst s1. simpl. rewrite lookup_app_r by lia.
  by rewrite Nat.sub_diag, Hfull.
Qed.

(** ** Tool calls that fail *)

Lemma getEditorState_cases args s :
  (∃ r, getEditorState args s = (Ok (Done r), s) ∧
        ¬ (truthyStr (arg_format args) = true ∧
           default EmptyString (arg_format args) ∉ validFormats)) ∨
  (∃ e, getEditorState args s = (Throw (Mcp e), s) ∧
        errCode e = InvalidParams ∧
        truthyStr (arg_format args) = true ∧
        default EmptyString (arg_format args) ∉ validFormats).
Proof.
  unfold getEditorState, arrayIncludes, gets, throw, mbind, mret, M_bind, M_ret.
  destruct (truthyStr (arg_format args)) eqn:Htruthy; simpl.
  - destruct (decide (default EmptyString (arg_format args) ∈ validFormats))
      as [Hin|Hout].
    + rewrite bool_decide_true by done. simpl. left.
      repeat (destruct (String.eqb _ _));
        (eexists; split; [reflexivity|]); by intros [_ ?].
    + rewrite bool_decide_false by done. simpl. right.
      by eexists; split_and!.
  - left. eexists; split; [reflexivity|]. by intros [? _].
Qed.

(** An invocation fails with the timeout error only: nothing ever calls
    [reject] of the promise in the slot, and the rest of the handler does
    not throw on entries of the declared type. *)
Lemma reachable_failed s c e :
  reachable s → calls s !! c = Some (Failed e) → e = timeoutError.
Proof.
  intros Hs. revert c e. induction Hs as [|now ev s _ IH]; intros c e.
  - simpl. by rewrite lookup_nil.
  - destruct (step_coordinator now ev s)
      as [Hcalls _|c' _ _ _ Hcalls|c' data i d logs t _ _ Hc' _ Hcalls
         |ws code request _ ->|c' i d _ Hc' _ Hcalls _].
    + rewrite Hcalls. apply IH.
    + rewrite Hcalls. apply IH.
    + rewrite Hcalls. destruct (decide (c' = c)) as [->|Hne].
      * by rewrite list_lookup_insert_eq by (by eapply lookup_lt_Some).
      * rewrite list_lookup_insert_ne by done. apply IH.
    + simpl. intros [Hold|[_ Hnew]]%lookup_app_Some; [by eapply IH|].
      by destruct (c - length (calls s))%nat as [|[|k]].
    + rewrite Hcalls. destruct (decide (c' = c)) as [->|Hne].
      * rewrite list_lookup_insert_eq by (by eapply lookup_lt_Some).
        by intros [= <-].
      * rewrite list_lookup_insert_ne by done. apply IH.
Qed.

(** X9: how a tool call fails.  A tool call that throws without having
    been suspended, that is before it has sent anything, leaves the state
    as it was, the slot and the frames sent included.  An invocation that
    throws after it was suspended throws the timeout error and nothing
    else, and by then the state has changed: its frame, with code that is
    not blank, has been sent.  This holds in every state the server can
    reach, provided the [log] frames carry entries of the declared type. *)
Theorem tool_call_throws_at_once_or_by_timeout :
  (∀ now request s e,
     (callTool now request s).1 = Throw e → (callTool now request s).2 = s) ∧
  (∀ s c e,
     reachable s → calls s !! c = Some (Failed e) →
     e = timeoutError ∧
     ∃ ws code, sent s !! c = Some (ws, ExecuteEditorCommand code) ∧
                validCode code).
Proof.
  split.
  - intros now request s e.
    unfold callTool, gets, throw, mbind, M_bind.
    destruct (unityConnection s) as [ws|] eqn:Hws; simpl; [|done].
    destruct (negb _); [done|].
    destruct (String.eqb _ "get_editor_state").
    { by destruct (getEditorState_cases (arguments request) s)
        as [(r & -> & _)|(e' & -> & _)]. }
    destruct (String.eqb _ "execute_editor_command").
    { by destruct (executeEditorCommand_cases now ws (arguments request) s)
        as [(code & _ & _ & ->)|(e' & -> & _)]. }
    destruct (String.eqb _ "get_logs"); [|done].
    by destruct (getLogs_pure (arguments request) s) as [logs ->].
  - intros s c e Hs Hc. split; [by eapply reachable_failed|].
    destruct (reachable_sent s Hs) as [Hlen Hframes].
    pose proof (lookup_lt_Some _ _ _ Hc) as Hlt. rewrite <- Hlen in Hlt.
    destruct (lookup_lt_is_Some_2 _ _ Hlt) as [[ws frame] Hsent].
    destruct (Hframes ws frame) as (code & -> & Hvalid).
    { by eapply list_elem_of_lookup_2. }
    by exists ws, code.
Qed.


(** X11: the three complaints about [code].  On a live connection a call
    of [execute_editor_command] fails with [InvalidParams] and says that
    the parameter is required when [code] is absent or falsy, the empty
    string included; that it must be a string when [code] is a truthy
    value of another type; that it cannot be empty when [code] is a
    non-empty string that [trim] empties. *)
Theorem execute_code_complaints now args s ws :
  unityConnection s = Some ws →
  let reply := (callTool now (mkRequest "execute_editor_command" args) s).1 in
  (truthy (arg_code args) = false →
   reply = Throw (Mcp (mkMcpError InvalidParams "The code parameter is required"))) ∧
  (truthy (arg_code args) = true →
   (∀ code, arg_code args ≠ Some (JStr code)) →
   reply = Throw (Mcp (mkMcpError InvalidParams
                         "The code parameter must be a string"))) ∧
  (∀ code, arg_code args = Some (JStr code) → code ≠ EmptyString →
           trim code = EmptyString →
   reply = Throw (Mcp (mkMcpError InvalidParams
                         "The code parameter cannot be empty"))).
Proof.
  intros Hws reply. subst reply.
  unfold callTool, gets, throw, mbind, M_bind. rewrite Hws. simpl.
  unfold executeEditorCommand, throw.
  split_and!.
  - by intros ->.
  - intros -> Hnot.
    destruct (arg_code args) as [[| | |code| |]|]; try done.
    by destruct (Hnot code).
  - intros code -> Hne Htrim. simpl.
    destruct (String.eqb_spec code EmptyString) as [?|_]; [done|].
    simpl. by rewrite Htrim.
Qed.

(** ** The formats of [get_editor_state] *)

(** X12: on a live connection [get_editor_state] without a format, with
    the empty format and with [Raw] returns the mirrored snapshot;
    [scripts only] returns the [scripts] category, and [no scripts] the
    snapshot without that category and otherwise as it is.  The two
    complement each other: putting the scripts back into the structure of
    [no scripts] gives the mirrored structure. *)
Theorem editor_state_formats now s ws :
  unityConnection s = Some ws →
  let call format :=
    (callTool now (mkRequest "get_editor_state" (formatArgs format)) s).1 in
  let mirror := editorState s in
  call None = Ok (Done (EditorStateResult mirror)) ∧
  call (Some EmptyString) = Ok (Done (EditorStateResult mirror)) ∧
  call (Some "Raw") = Ok (Done (EditorStateResult mirror)) ∧
  call (Some "scripts only")
  = Ok (Done (ScriptsResult (default [] (projectStructure mirror !! "scripts")))) ∧
  ∃ rest,
    call (Some "no scripts") = Ok (Done (EditorStateResult rest)) ∧
    projectStructure rest !! "scripts" = None ∧
    (∀ key, key ≠ "scripts" →
            projectStructure rest !! key = projectStructure mirror !! key) ∧
    activeGameObjects rest = activeGameObjects mirror ∧
    selectedObjects rest = selectedObjects mirror ∧
    playModeState rest = playModeState mirror ∧
    sceneHierarchy rest = sceneHierarchy mirror ∧
    (∀ paths, projectStructure mirror !! "scripts" = Some paths →
              <["scripts" := paths]> (projectStructure rest)
              = projectStructure mirror) ∧
    (projectStructure mirror !! "scripts" = None →
     projectStructure rest = projectStructure mirror).
Proof.
  intros Hws call mirror. subst call mirror.
  unfold callTool, gets, mbind, M_bind. rewrite Hws. simpl.
  split_and!; try done.
  eexists. split; [reflexivity|]. simpl.
  split_and!; try done.
  - apply lookup_delete_eq.
  - intros key Hkey. by apply lookup_delete_ne.
  - intros paths Hpaths. rewrite insert_delete_eq. by apply insert_id.
  - intros Hnone. by apply delete_id.
Qed.

(** ** What [get_logs] returns *)

Lemma includes_unfold text part :
  includes text part
  = startsWith text part ||
    match text with
    | EmptyString => false
    | String _ text' => includes text' part
    end.
Proof. by destruct text. Qed.

Lemma includes_spec text part :
  includes text part = true ↔ ∃ before after, text = before +:+ part +:+ after.
Proof.
  induction text as [|a text IH]; rewrite includes_unfold.
  - rewrite orb_false_r, startsWith_spec. split.
    + intros [rest Hrest]. by exists EmptyString, rest.
    + intros ([|b before] & after & Heq); [by exists after|done].
  - rewrite orb_true_iff, IH, startsWith_spec. split.
    + intros [[rest Hrest]|(before & after & ->)].
      * by exists EmptyString, rest.
      * by exists (String a before), after.
    + intros ([|b before] & after & Heq).
      * left. by exists after.
      * right. simpl in Heq. injection Heq as _ ->. by exists before, after.
Qed.

Lemma filter_sublist {A} (f : A → bool) (l : list A) :
  sublist (List.filter f l) l.
Proof.
  induction l as [|x l IH]; simpl; [done|].
  destruct (f x); by constructor.
Qed.

Lemma getLogs_eq args s :
  getLogs args s
  = (match filterLogs (optionsOf args) s with
     | (Ok logs, s') => (Ok (Done (LogsResult logs)), s')
     | (Throw e, s') => (Throw e, s')
     end).
Proof. reflexivity. Qed.

(** X13: with a positive count, the default 100 included, and no field
    selection, [get_logs] returns the most recent of the entries that pass
    the filters: a suffix of the matching entries, in buffer order, of at
    most [count] entries, and all of them when they are no more than
    [count]. *)
Theorem get_logs_returns_most_recent_matches now args s ws :
  unityConnection s = Some ws →
  arg_fields args = None →
  0 < limitOf args →
  let matching := List.filter (keepLog (optionsOf args)) (logBuffer s) in
  ∃ logs,
    callTool now (mkRequest "get_logs" args) s
    = (Ok (Done (LogsResult (Entries logs))), s) ∧
    (Z.of_nat (length logs) ≤ limitOf args) ∧
    logs `suffix_of` matching ∧
    (Z.of_nat (length matching) ≤ limitOf args → logs = matching) ∧
    (limitOf args ≤ Z.of_nat (length matching) →
     Z.of_nat (length logs) = limitOf args) ∧
    sublist logs (logBuffer s) ∧
    Forall (λ log, keepLog (optionsOf args) log = true) logs.
Proof.
  intros Hws Hfields Hpos matching.
  rewrite (callTool_get_logs _ _ _ ws Hws), getLogs_eq.
  unfold filterLogs, gets, mbind, mret, M_bind, M_ret. simpl.
  rewrite Hfields.
  fold matching. rewrite (slice_last _ _ Hpos).
  eexists. split; [reflexivity|].
  assert (Hsuffix : drop (length matching - Z.to_nat (limitOf args)) matching
                    `suffix_of` matching) by apply suffix_drop.
  split_and!.
  - rewrite length_drop. lia.
  - done.
  - intros Hfew.
    by replace (length matching - Z.to_nat (limitOf args))%nat with 0%nat by lia.
  - intros Hmany. rewrite length_drop. lia.
  - etrans; [by apply sublist_drop|]. apply filter_sublist.
  - apply Forall_forall. intros log Hlog.
    assert (Hin : log ∈ matching).
    { destruct Hsuffix as [older Heq]. rewrite Heq. set_solver. }
    subst matching. apply list_elem_of_In, filter_In in Hin. by destruct Hin.
Qed.

(** X14: a negative count is no limit.  With [count = -k] and no field
    selection [get_logs] drops the [k] oldest matching entries and returns
    all the others. *)
Theorem get_logs_negative_count_drops_oldest now args s ws k :
  unityConnection s = Some ws →
  arg_fields args = None →
  arg_count args = Some (- Z.of_nat k) →
  (0 < k)%nat →
  callTool now (mkRequest "get_logs" args) s
  = (Ok (Done (LogsResult
       (Entries (drop k (List.filter (keepLog (optionsOf args)) (logBuffer s)))))),
     s).
Proof.
  intros Hws Hfields Hcount Hk.
  rewrite (callTool_get_logs _ _ _ ws Hws), getLogs_eq.
  unfold filterLogs, gets, mbind, mret, M_bind, M_ret. simpl.
  rewrite Hfields. do 4 f_equal.
  unfold limitOf. rewrite Hcount.
  destruct (Z.eqb_spec (- Z.of_nat k) 0) as [?|_]; [lia|].
  unfold slice.
  destruct (Z.ltb_spec (- - Z.of_nat k) 0) as [?|_]; [lia|].
  set (matching := List.filter _ _).
  f_equal. destruct (decide (k ≤ length matching)%nat) as [Hle|Hgt].
  - f_equal. lia.
  - rewrite !drop_ge; [done|lia|lia].
Qed.

Lemma keepLog_conjunction options log :
  keepLog options log
  = match types options with
    | Some ts => arrayIncludes ts (logType log)
    | None => true
    end &&
    negb (truthyStr (messageContains options) &&
          negb (includes (message log)
                         (default EmptyString (messageContains options)))) &&
    negb (truthyStr (stackTraceContains options) &&
          negb (includes (stackTrace log)
                         (default EmptyString (stackTraceContains options)))) &&
    negb (truthyStr (timestampAfter options) &&
          dateLt (timestamp log) (default EmptyString (timestampAfter options))) &&
    negb (truthyStr (timestampBefore options) &&
          dateLt (default EmptyString (timestampBefore options)) (timestamp log)).
Proof.
  unfold keepLog.
  destruct (types options) as [ts|]; [destruct (arrayIncludes ts _)|]; simpl;
    try done;
    repeat (match goal with |- context [if ?b && ?c then _ else _] =>
              destruct (b && c); simpl; try done end).
Qed.

Lemma text_filter_passes filter text :
  negb (truthyStr filter && negb (includes text (default EmptyString filter)))
  = true ↔
  ∀ part, given filter part → ∃ before after, text = before +:+ part +:+ after.
Proof.
  unfold given. destruct filter as [part|]; simpl.
  - destruct (String.eqb_spec part EmptyString) as [->|Hne]; simpl.
    + split; [|done]. by intros _ ? [[= <-] ?].
    + rewrite negb_involutive, includes_spec. split.
      * by intros Hin ? [[= <-] _].
      * intros Hall. by apply Hall.
  - split; [|done]. by intros _ ? [? _].
Qed.

Lemma dateLt_false a b :
  negb (dateLt a b) = true ↔
  ∀ x y, Date_parse a = Some x → Date_parse b = Some y → y ≤ x.
Proof.
  unfold dateLt.
  destruct (Date_parse a) as [x|], (Date_parse b) as [y|]; simpl;
    try (split; [by intros _ ? ? ? ?|done]).
  rewrite negb_true_iff, Z.ltb_ge. split.
  - by intros Hle ? ? [= <-] [= <-].
  - intros Hall. by apply Hall.
Qed.

Lemma date_filter_passes filter (lt : string → bool) :
  negb (truthyStr filter && lt (default EmptyString filter)) = true ↔
  ∀ bound, given filter bound → negb (lt bound) = true.
Proof.
  unfold given. destruct filter as [bound|]; simpl.
  - destruct (String.eqb_spec bound EmptyString) as [->|Hne]; simpl.
    + split; [|done]. by intros _ ? [[= <-] ?].
    + split.
      * by intros Hlt ? [[= <-] _].
      * intros Hall. by apply Hall.
  - split; [|done]. by intros _ ? [? _].
Qed.

(** X15: which entries pass the filters of [filterLogs].  An entry passes
    exactly when its type is among [types] if [types] is given (so an
    empty [types] lets nothing pass), its message and its stack trace
    contain the texts asked for, and its date is not before
    [timestampAfter] nor after [timestampBefore], both bounds included.
    A filter text that is empty counts as absent, and a date that cannot
    be parsed, of the entry or of a bound, excludes nothing. *)
Theorem keepLog_passes_exactly options log :
  keepLog options log = true ↔
  (∀ ts, types options = Some ts → logType log ∈ ts) ∧
  (∀ part, given (messageContains options) part →
           ∃ before after, message log = before +:+ part +:+ after) ∧
  (∀ part, given (stackTraceContains options) part →
           ∃ before after, stackTrace log = before +:+ part +:+ after) ∧
  (∀ bound t b, given (timestampAfter options) bound →
                Date_parse (timestamp log) = Some t →
                Date_parse bound = Some b → b ≤ t) ∧
  (∀ bound t b, given (timestampBefore options) bound →
                Date_parse (timestamp log) = Some t →
                Date_parse bound = Some b → t ≤ b).
Proof.
  rewrite keepLog_conjunction, !andb_true_iff.
  rewrite !text_filter_passes.
  rewrite (date_filter_passes (timestampAfter options) (dateLt (timestamp log))).
  rewrite (date_filter_passes (timestampBefore options)
             (λ bound, dateLt bound (timestamp log))).
  assert (Htypes : match types options with
                   | Some ts => arrayIncludes ts (logType log)
                   | None => true
                   end = true ↔
                   ∀ ts, types options = Some ts → logType log ∈ ts).
  { unfold arrayIncludes. destruct (types options) as [ts|].
    - rewrite bool_decide_eq_true. split; [by intros ? ? [= <-]|eauto].
    - split; [done|eauto]. }
  rewrite Htypes. split.
  - intros ((((? & ?) & ?) & Hafter) & Hbefore). split_and!; try done.
    + intros bound t b Hgiven Ht Hb.
      by apply (proj1 (dateLt_false _ _) (Hafter bound Hgiven)).
    + intros bound t b Hgiven Ht Hb.
      by apply (proj1 (dateLt_false _ _) (Hbefore bound Hgiven)).
  - intros (? & ? & ? & Hafter & Hbefore). split_and!; try done.
    + intros bound Hgiven. apply dateLt_false. intros x y Hx Hy.
      by eapply Hafter.
    + intros bound Hgiven. apply dateLt_false. intros x y Hx Hy.
      by eapply Hbefore.
Qed.

Lemma setProperty_spec obj key value :
  NoDup obj.*1 →
  NoDup (setProperty obj key value).*1 ∧
  ∀ k v, (k, v) ∈ setProperty obj key value ↔
         (k = key ∧ v = value) ∨ (k ≠ key ∧ (k, v) ∈ obj).
Proof.
  induction obj as [|[k0 v0] obj IH]; simpl; intros Hnodup.
  - split; [apply NoDup_singleton|]. intros k v.
    rewrite list_elem_of_singleton, elem_of_nil. split.
    + intros [= -> ->]. by left.
    + by intros [[-> ->]|[_ []]].
  - apply NoDup_cons in Hnodup as [Hfresh Hnodup].
    destruct (String.eqb_spec k0 key) as [->|Hne]; simpl.
    + split; [by apply NoDup_cons|]. intros k v.
      rewrite !elem_of_cons. split.
      * intros [[= -> ->]|Hin]; [by left|]. right. split; [|by right].
        intros ->. apply Hfresh. apply list_elem_of_fmap. by exists (key, v).
      * intros [[-> ->]|[Hk [[= -> ->]|Hin]]]; [by left|done|by right].
    + destruct (IH Hnodup) as [IHnodup IHin]. split.
      * apply NoDup_cons. split; [|done].
        intros ((k & v) & Hk & Hin)%list_elem_of_fmap. simpl in Hk. subst k.
        apply IHin in Hin as [[-> _]|[_ Hin]]; [done|].
        apply Hfresh. apply list_elem_of_fmap. by exists (k0, v).
      * intros k v. rewrite !elem_of_cons, IHin. split.
        -- intros [[= -> ->]|[[-> ->]|[? ?]]]; [right|left|right]; by auto.
        -- intros [[-> ->]|[? [[= -> ->]|?]]]; by auto.
Qed.

Lemma isLogField_spec field :
  isLogField field = true ↔
  field ∈ ["message"; "stackTrace"; "logType"; "timestamp"].
Proof.
  unfold isLogField. rewrite !orb_true_iff, !String.eqb_eq.
  rewrite !elem_of_cons, elem_of_nil. tauto.
Qed.

(** X16: the object [filterLogs] builds for an entry under a field
    selection has each of the four field names that occurs in the
    selection, once, with the entry's value for it, and nothing else:
    other names are ignored and a repeated name counts once. *)
Theorem selectFields_holds_the_selected_fields fieldNames log :
  NoDup (selectFields fieldNames log).*1 ∧
  ∀ k v, (k, v) ∈ selectFields fieldNames log ↔
         k ∈ fieldNames ∧
         k ∈ ["message"; "stackTrace"; "logType"; "timestamp"] ∧
         v = readField log k.
Proof.
  unfold selectFields.
  assert (Hgen : ∀ fs seen obj,
    (NoDup obj.*1 ∧
     ∀ k v, (k, v) ∈ obj ↔
            k ∈ seen ∧ isLogField k = true ∧ v = readField log k) →
    let obj' := foldl (λ selected field,
                         if isLogField field
                         then setProperty selected field (readField log field)
                         else selected) obj fs in
    NoDup obj'.*1 ∧
    ∀ k v, (k, v) ∈ obj' ↔
           k ∈ seen ++ fs ∧ isLogField k = true ∧ v = readField log k).
  { induction fs as [|f fs IH]; intros seen obj [Hnodup Hin]; simpl.
    - by rewrite app_nil_r.
    - replace (seen ++ f :: fs) with ((seen ++ [f]) ++ fs)
        by by rewrite <- (assoc_L (++)).
      apply IH. destruct (isLogField f) eqn:Hf.
      + destruct (setProperty_spec obj f (readField log f) Hnodup)
          as [Hnodup' Hin'].
        split; [done|]. intros k v. rewrite Hin', Hin, elem_of_app.
        rewrite list_elem_of_singleton. split.
        * intros [[-> ->]|[Hne (? & ? & ?)]]; [by auto|by auto].
        * intros (Hk & ? & ->). destruct (decide (k = f)) as [->|?];
            [by left|]. right. by destruct Hk.
      + split; [done|]. intros k v. rewrite Hin, elem_of_app.
        rewrite list_elem_of_singleton. split; [by intros (? & ? & ?); auto|].
        intros ([?| ->] & ? & ?); [done|congruence]. }
  destruct (Hgen fieldNames [] []) as [Hnodup Hin].
  { split; [constructor|]. intros k v. rewrite !elem_of_nil. tauto. }
  split; [done|]. intros k v. rewrite Hin. simpl.
  by rewrite isLogField_spec.
Qed.

(** X17: a field selection only reshapes the answer.  On a live
    connection [get_logs] with a non-empty [fields] returns, entry by
    entry, the selected fields of what the same call without [fields]
    returns; with an empty [fields] it returns the entries themselves. *)
Theorem get_logs_field_selection_reshapes now args s ws :
  unityConnection s = Some ws →
  ∃ logs,
    callTool now (mkRequest "get_logs" (withFields None args)) s
    = (Ok (Done (LogsResult (Entries logs))), s) ∧
    callTool now (mkRequest "get_logs" (withFields (Some []) args)) s
    = (Ok (Done (LogsResult (Entries logs))), s) ∧
    ∀ f fs,
      callTool now (mkRequest "get_logs" (withFields (Some (f :: fs)) args)) s
      = (Ok (Done (LogsResult (Selected (selectFields (f :: fs) <$> logs)))), s).
Proof.
  intros Hws. eexists. split_and!.
  - by rewrite (callTool_get_logs _ _ _ ws Hws).
  - by rewrite (callTool_get_logs _ _ _ ws Hws).
  - intros f fs. by rewrite (callTool_get_logs _ _ _ ws Hws).
Qed.

(** ** Frames the mirror refuses *)

Lemma userPaths_broken l v :
  v ∈ l → isString v = false → userPaths l = None.
Proof.
  intros Hin Hv. unfold userPaths.
  destruct (mapM asString l) as [paths|] eqn:Hpaths; [|done].
  apply mapM_Some_1 in Hpaths.
  apply list_elem_of_lookup in Hin as [i Hi].
  destruct (Forall2_lookup_l _ _ _ _ _ Hpaths Hi) as (path & _ & Hpath).
  by destruct v.
Qed.

Lemma filterCategory_fold_broken (m : gmap string JSON) key value :
  m !! key = Some value → brokenCategory value →
  map_fold filterCategory (Some ∅) m = None.
Proof.
  intros Hkey Hbroken. revert Hkey.
  apply (map_fold_weak_ind
    (λ acc m, m !! key = Some value → acc = None)); [by rewrite lookup_empty|].
  intros i x m' acc Hfresh IH Hlookup.
  destruct (decide (i = key)) as [->|Hne].
  - rewrite lookup_insert_eq in Hlookup. simplify_eq.
    destruct Hbroken as (l & v & -> & Hin & Hv).
    unfold filterCategory. destruct acc; [|done]. simpl.
    by rewrite (userPaths_broken l v).
  - rewrite lookup_insert_ne in Hlookup by done. by rewrite (IH Hlookup).
Qed.

(** X18: a frame the mirror cannot take changes nothing.  An [editorState]
    frame without payload or with [null] for payload, and one whose
    [projectStructure] has an array category with an element that is no
    string, leave the whole state as it was: the snapshot is replaced as a
    whole or not at all. *)
Theorem editorState_frame_all_or_nothing now s :
  step now (WsMessage (EditorStateMessage None)) s = s ∧
  step now (WsMessage (EditorStateMessage (Some JNull))) s = s ∧
  ∀ payload key value,
    categories payload !! key = Some value → brokenCategory value →
    step now (WsMessage (EditorStateMessage (Some (JObj payload)))) s = s.
Proof.
  split_and!; [done|done|].
  intros payload key value Hkey Hbroken. unfold categories in Hkey.
  rewrite step_editorState_frame.
  unfold storeEditorState, orTypeError, getProperty,
    modify, throw, mbind, mret, M_bind, M_ret.
  destruct (payload !! "projectStructure") as [structure|];
    [|by rewrite lookup_empty in Hkey].
  destruct (truthy (Some structure)) eqn:Htruthy.
  - unfold filterProjectStructure.
    by rewrite (filterCategory_fold_broken _ key value Hkey Hbroken).
  - by rewrite (ownProperties_falsy _ Htruthy), lookup_empty in Hkey.
Qed.

(** X19: the four plain fields of a snapshot are mirrored unchecked.  Of a
    frame it accepts the mirror stores, for [activeGameObjects],
    [selectedObjects], [playModeState] and [sceneHierarchy], the value of
    the frame if it is truthy, of whatever type, and the default if it is
    absent or falsy ([null], [false], [0], the empty string). *)
Theorem editorState_fields_truthy_or_default now payload s :
  wellTyped payload →
  let st := editorState
    (step now (WsMessage (EditorStateMessage (Some (JObj payload)))) s) in
  let mirrored name fallback :=
    match payload !! name with
    | Some value => if truthy (Some value) then value else fallback
    | None => fallback
    end in
  activeGameObjects st = mirrored "activeGameObjects" (JArr []) ∧
  selectedObjects st = mirrored "selectedObjects" (JArr []) ∧
  playModeState st = mirrored "playModeState" (JStr "Stopped") ∧
  sceneHierarchy st = mirrored "sceneHierarchy" (JObj ∅).
Proof.
  intros Hok st mirrored. subst st mirrored.
  destruct (editorState_frame now payload s Hok) as (r & -> & _).
  unfold or_else. simpl. split_and!; by destruct (payload !! _).
Qed.

(** X20: what is published is what is served.  After an [editorState]
    frame whose categories conform, [get_editor_state] with
    [scripts only] returns the paths of the [scripts] category of the
    frame without those under [Packages/], and the empty list when the
    frame has no [scripts] category or one that is no array. *)
Theorem published_scripts_are_served now now' payload s ws :
  wellTyped payload →
  unityConnection s = Some ws →
  let s' := step now (WsMessage (EditorStateMessage (Some (JObj payload)))) s in
  let served :=
    (callTool now' (mkRequest "get_editor_state" scriptsOnly) s').1 in
  (∀ paths, categories payload !! "scripts" = Some (JArr (JStr <$> paths)) →
            served = Ok (Done (ScriptsResult (userOnly paths)))) ∧
  (categories payload !! "scripts" = None →
   served = Ok (Done (ScriptsResult []))) ∧
  (∀ value, categories payload !! "scripts" = Some value →
            isArray value = false →
            served = Ok (Done (ScriptsResult []))).
Proof.
  intros Hok Hws s' served. subst s' served.
  destruct (editorState_frame now payload s Hok) as (r & -> & Hr).
  unfold callTool, gets, mbind, M_bind. simpl. rewrite Hws. simpl.
  unfold getEditorState, gets, mbind, mret, M_bind, M_ret. simpl.
  rewrite Hr. split_and!.
  - intros paths ->. simpl. by rewrite userPaths_strings.
  - by intros ->.
  - intros value -> Hna. by destruct value.
Qed.

(** ** The connection *)

(** X21: the connection is the socket that connected last, and the close
    of any socket clears it.  After two editors have connected, commands
    go to the second; when the first then closes, the server holds no
    connection and fails every tool call, although the second socket is
    open. *)
Theorem connection_is_last_socket now now' now'' first second code request s :
  validCode code →
  let s2 := run [(now, WsConnection first); (now', WsConnection second)] s in
  sent (step now'' (CallTool (executeRequest code)) s2)
  = sent s ++ [(second, ExecuteEditorCommand code)] ∧
  let s3 := step now'' (WsClose first) s2 in
  unityConnection s3 = None ∧
  callTool now'' request s3 = (Throw (Mcp notConnected), s3).
Proof.
  intros Hcode s2. subst s2. simpl.
  rewrite (callTool_execute now'' code
             (set_unityConnection (Some second)
                (set_unityConnection (Some first) s)) second eq_refl Hcode).
  simpl.
  split; [done|]. split; [done|].
  by apply callTool_disconnected.
Qed.

(** ** Code that is blank *)

Lemma trimStart_empty text :
  trimStart text = EmptyString ↔ Forall (λ a, isWhiteSpace a = true) (chars text).
Proof.
  unfold chars. induction text as [|a text IH]; simpl; [by split|].
  destruct (isWhiteSpace a) eqn:Ha.
  - rewrite IH. split; [by constructor|by inversion 1].
  - split; [done|]. inversion 1. congruence.
Qed.

Lemma chars_rev_app text text' :
  chars (String.rev_app text text') = reverse (chars text) ++ chars text'.
Proof.
  revert text'. induction text as [|a text IH]; intros text'; simpl; [done|].
  rewrite IH. unfold chars. simpl.
  by rewrite reverse_cons, <- (assoc_L (++)).
Qed.

Lemma chars_rev text : chars (String.rev text) = reverse (chars text).
Proof.
  unfold String.rev. rewrite chars_rev_app. by rewrite app_nil_r.
Qed.

Lemma chars_empty text : chars text = [] ↔ text = EmptyString.
Proof. by destruct text. Qed.

Lemma trimStart_chars text :
  ∃ dropped, chars text = dropped ++ chars (trimStart text).
Proof.
  induction text as [|a text [dropped IH]]; simpl; [by exists []|].
  destruct (isWhiteSpace a).
  - exists (a :: dropped). unfold chars in *. simpl. by rewrite IH.
  - by exists [].
Qed.

Lemma trim_blank text :
  String.length (trim text) = 0%nat ↔
  Forall (λ a, isWhiteSpace a = true) (chars text).
Proof.
  rewrite <- trimStart_empty. unfold trim. split.
  - intros Hlen.
    assert (Hrev : String.rev (trimStart (String.rev (trimStart text)))
                   = EmptyString)
      by by destruct (String.rev _).
    apply chars_empty in Hrev. rewrite chars_rev in Hrev.
    apply (f_equal reverse) in Hrev. rewrite reverse_involutive in Hrev.
    apply chars_empty, trimStart_empty in Hrev.
    rewrite chars_rev, Forall_reverse in Hrev.
    destruct (trimStart text) as [|a rest] eqn:Htrim; [done|].
    exfalso.
    assert (Ha : isWhiteSpace a = false).
    { clear -Htrim. induction text as [|b text IH]; simpl in Htrim; [done|].
      destruct (isWhiteSpace b) eqn:Hb; [by apply IH|]. by simplify_eq. }
    unfold chars in Hrev. simpl in Hrev. inversion Hrev. congruence.
  - by intros ->.
Qed.

(** X22: [execute_editor_command] dispatches exactly the code that is not
    blank.  For code whose code units are all below 256, as the strings of
    the model are: on a live connection the call is suspended, and its
    frame sent, if and only if [code] is a string with at least one
    character other than TAB, LF, VT, FF, CR, SP and NBSP, the characters
    below 256 that [trim] strips.  Code with other code units is outside
    the model; of those [trim] strips U+FEFF, U+2028, U+2029 and the space
    separators as well. *)
Theorem execute_dispatches_unless_blank now args s ws :
  unityConnection s = Some ws →
  let reply := callTool now (mkRequest "execute_editor_command" args) s in
  ((∃ c, reply.1 = Ok (Pending c)) ↔
   ∃ code, arg_code args = Some (JStr code) ∧
           ∃ a, a ∈ chars code ∧ isWhiteSpace a = false) ∧
  ((∃ c, reply.1 = Ok (Pending c)) →
   ∃ code, sent reply.2 = sent s ++ [(ws, ExecuteEditorCommand code)]) ∧
  ((∀ c, reply.1 ≠ Ok (Pending c)) → reply.2 = s).
Proof.
  intros Hws reply. subst reply.
  assert (Hvalid : ∀ code, validCode code ↔
            ∃ a, a ∈ chars code ∧ isWhiteSpace a = false).
  { intros code. unfold validCode. rewrite trim_blank. split.
    - intros Hnot. apply not_Forall_Exists in Hnot; [|intros a; apply _].
      apply Exists_exists in Hnot as (a & Hin & Ha). exists a.
      split; [done|]. simpl in Ha. by destruct (isWhiteSpace a).
    - intros (a & Hin & Ha) Hall.
      rewrite Forall_forall in Hall. specialize (Hall a Hin). congruence. }
  unfold callTool, gets, mbind, M_bind. rewrite Hws. simpl.
  destruct (executeEditorCommand_cases now ws args s)
    as [(code & Hcode & Hv & ->)|(e & -> & _ & Hbad)]; simpl.
  - split_and!.
    + split; [|by eauto]. intros _. exists code. split; [done|]. by apply Hvalid.
    + intros _. by exists code.
    + intros Hno. by destruct (Hno (length (calls s))).
  - split_and!.
    + split; [by intros [? ?]|]. intros (code & Hcode & Hchar).
      destruct Hbad. exists code. split; [done|]. by apply Hvalid.
    + by intros [? ?].
    + done.
Qed.

End More.

(** ** The further theorems at concrete runs *)

Lemma mirror_never_holds_package_paths_witness :
  packageFree (editorState publishedState).
Proof.
  apply (@mirror_never_holds_package_paths noDates).
  unfold publishedState, connectedState. do 2 apply reachable_step.
  apply reachable_init.
Defined.

Lemma mirror_changes_with_editorState_frames_only_witness :
  editorState (@run noDates [(1, WsClose 1); (2, WsConnection 2)] publishedState)
  = editorState publishedState.
Proof.
  assert (Hevs : Forall notEditorState [(1, WsClose 1%nat); (2, WsConnection 2%nat)])
    by (repeat constructor).
  exact (proj1 (@mirror_changes_with_editorState_frames_only noDates _
                  publishedState Hevs)).
Defined.

Lemma one_frame_per_command_witness :
  length (sent busyState) = length (calls busyState).
Proof.
  assert (Hreach : @reachable noDates busyState).
  { unfold busyState, connectedState. do 2 apply reachable_step.
    apply reachable_init. }
  exact (proj1 (@one_frame_per_command noDates busyState Hreach)).
Defined.

Lemma settled_call_ignores_late_events_witness :
  let s := @run noDates [(5000, TimerFired 0%nat)] busyState in
  @step noDates 6000 (TimerFired 0%nat) s = s.
Proof.
  intros s.
  assert (Hcall : calls s !! 0%nat = Some (Failed timeoutError)) by reflexivity.
  exact (proj1 (@settled_call_ignores_late_events noDates 6000 0%nat
                  (Failed timeoutError) None s Hcall I)).
Defined.

Lemma command_completes_with_result_and_tagged_logs_witness :
  let entry text := mkLogEntry text "" "Log" "t" in
  let s := @run noDates
    [(0, CallTool (executeRequest "Debug.Log(1);"));
     (1, WsMessage (LogMessage (entry "[UnityMCP] first")));
     (7, WsMessages [LogMessage (entry "[UnityMCP] second");
                     LogMessage (entry "untagged");
                     CommandResultMessage (Some (JBool true));
                     LogMessage (entry "[UnityMCP] third")])]
    connectedState in
  calls s !! 0%nat
  = Some (Completed (CommandResult (Some (JBool true))
            [entry "[UnityMCP] first"; entry "[UnityMCP] second";
             entry "[UnityMCP] third"] 7)).
Proof.
  intros entry s.
  assert (Hcode : validCode "Debug.Log(1);") by (unfold validCode; simpl; lia).
  assert (Hroom : (length (logBuffer connectedState)
                   + length [(1, entry "[UnityMCP] first")]
                   + length [entry "[UnityMCP] second"; entry "untagged"]
                   + length [entry "[UnityMCP] third"]
                   ≤ maxLogBufferSize)%nat)
    by (unfold maxLogBufferSize; simpl; lia).
  exact (proj1 (@command_completes_with_result_and_tagged_logs noDates 0 7
                  "Debug.Log(1);" (Some (JBool true))
                  [(1, entry "[UnityMCP] first")]
                  [entry "[UnityMCP] second"; entry "untagged"]
                  [entry "[UnityMCP] third"]
                  connectedState 1%nat eq_refl Hcode Hroom)).
Defined.

Lemma full_buffer_command_reports_no_logs_witness :
  let entry := mkLogEntry "[UnityMCP] done" "" "Log" "t" in
  let evs := [(1, WsMessage (LogMessage entry));
              (7, WsMessage (CommandResultMessage (Some (JBool true))))] in
  length (logBuffer fullState) = 1000%nat ∧
  calls (@run noDates evs
           (@step noDates 0 (CallTool (executeRequest "Debug.Log(1);"))
                  fullState)) !! 0%nat
  = Some (Completed (CommandResult (Some (JBool true)) [] 7)).
Proof.
  intros entry evs.
  assert (Hcode : validCode "Debug.Log(1);") by (unfold validCode; simpl; lia).
  assert (Hreach : @reachable noDates fullState).
  { unfold fullState. apply reachable_run.
    unfold connectedState. apply reachable_step, reachable_init. }
  assert (Hfull : length (logBuffer fullState) = maxLogBufferSize)
    by (vm_compute; reflexivity).
  assert (Hdone : ∃ logs,
            calls (@run noDates evs
                     (@step noDates 0 (CallTool (executeRequest "Debug.Log(1);"))
                            fullState)) !! 0%nat
            = Some (Completed (CommandResult (Some (JBool true)) logs 7)))
    by (eexists; vm_compute; reflexivity).
  destruct Hdone as [logs Hdone].
  pose proof (@full_buffer_command_reports_no_logs noDates 0 "Debug.Log(1);"
                evs fullState 1%nat (Some (JBool true)) logs 7
                Hreach eq_refl Hcode Hfull Hdone) as Hlogs.
  split; [exact Hfull|]. rewrite Hdone. by rewrite Hlogs.
Defined.

Lemma tool_call_throws_at_once_or_by_timeout_witness :
  (@callTool noDates 0 (executeRequest "   ") busyState).2 = busyState ∧
  let s := @run noDates [(5000, TimerFired 0%nat)] busyState in
  calls s !! 0%nat = Some (Failed timeoutError) ∧
  ∃ ws code, sent s !! 0%nat = Some (ws, ExecuteEditorCommand code) ∧
             validCode code.
Proof.
  destruct (@tool_call_throws_at_once_or_by_timeout noDates) as [Hearly Hlate].
  split.
  - apply (Hearly 0 (executeRequest "   ") busyState
             (Mcp (mkMcpError InvalidParams "The code parameter cannot be empty"))).
    reflexivity.
  - intros s.
    assert (Hreach : @reachable noDates s).
    { unfold s, busyState, connectedState. apply reachable_run.
      do 2 apply reachable_step. apply reachable_init. }
    assert (Hc : calls s !! 0%nat = Some (Failed timeoutError)) by reflexivity.
    split; [exact Hc|].
    exact (proj2 (Hlate s 0%nat timeoutError Hreach Hc)).
Defined.


Lemma execute_code_complaints_witness :
  (@callTool noDates 0 (mkRequest "execute_editor_command" (codeArgs EmptyString))
     connectedState).1
  = Throw (Mcp (mkMcpError InvalidParams "The code parameter is required")).
Proof.
  apply (@execute_code_complaints noDates 0 (codeArgs EmptyString)
           connectedState 1%nat eq_refl).
  reflexivity.
Defined.

Lemma editor_state_formats_witness :
  (@callTool noDates 1 (mkRequest "get_editor_state" (formatArgs (Some "scripts only")))
     publishedState).1
  = Ok (Done (ScriptsResult ["Assets/Foo.cs"; "Assets/Baz.cs"])).
Proof.
  destruct (@editor_state_formats noDates 1 publishedState 1%nat eq_refl)
    as (_ & _ & _ & Hscripts & _).
  rewrite Hscripts. vm_compute. reflexivity.
Defined.

Lemma get_logs_returns_most_recent_matches_witness :
  ∃ logs,
    @callTool noDates 0 (mkRequest "get_logs" noArgs) chattyState
    = (Ok (Done (LogsResult (Entries logs))), chattyState) ∧
    Z.of_nat (length logs) ≤ 100.
Proof.
  assert (Hpos : 0 < limitOf noArgs) by (unfold limitOf; simpl; lia).
  destruct (@get_logs_returns_most_recent_matches noDates 0 noArgs chattyState
              1%nat eq_refl eq_refl Hpos) as (logs & Hcall & Hlen & _).
  exists logs. exact (conj Hcall Hlen).
Defined.

Lemma get_logs_negative_count_drops_oldest_witness :
  let args := mkToolArgs None None None (Some (-1)) None None None None None in
  (@callTool noDates 0 (mkRequest "get_logs" args) chattyState).1
  = Ok (Done (LogsResult (Entries (drop 1 (logBuffer chattyState))))).
Proof.
  intros args.
  assert (Hk : (0 < 1)%nat) by lia.
  rewrite (@get_logs_negative_count_drops_oldest noDates 0 args chattyState
             1%nat 1%nat eq_refl eq_refl eq_refl Hk).
  vm_compute. reflexivity.
Defined.

Lemma get_logs_field_selection_reshapes_witness :
  ∃ logs,
    @callTool noDates 0
      (mkRequest "get_logs" (withFields (Some ["message"]) noArgs)) chattyState
    = (Ok (Done (LogsResult (Selected (selectFields ["message"] <$> logs)))),
       chattyState).
Proof.
  destruct (@get_logs_field_selection_reshapes noDates 0 noArgs chattyState
              1%nat eq_refl) as (logs & _ & _ & Hselected).
  exists logs. apply Hselected.
Defined.

Lemma editorState_frame_all_or_nothing_witness :
  let payload : gmap string JSON :=
    <["playModeState" := JStr "Playing"]>
    (<["projectStructure" := JObj (<["scripts" := JArr [JNum 1]]> ∅)]> ∅) in
  @step noDates 0 (WsMessage (EditorStateMessage (Some (JObj payload))))
        publishedState
  = publishedState.
Proof.
  intros payload.
  destruct (@editorState_frame_all_or_nothing noDates 0 publishedState)
    as (_ & _ & Hbroken).
  apply (Hbroken payload "scripts" (JArr [JNum 1])).
  - vm_compute. reflexivity.
  - exists [JNum 1], (JNum 1). split_and!; [reflexivity| |reflexivity].
    apply list_elem_of_singleton. reflexivity.
Defined.

Lemma editorState_fields_truthy_or_default_witness :
  playModeState (editorState publishedState) = JStr "Stopped" ∧
  activeGameObjects (editorState publishedState) = JArr [JStr "Main Camera"].
Proof.
  assert (Hok : wellTyped samplePayload).
  { unfold wellTyped. apply (bool_decide_unpack _). vm_compute. exact I. }
  destruct (@editorState_fields_truthy_or_default noDates 0 samplePayload
              connectedState Hok) as (Hactive & _ & Hplay & _).
  split.
  - etrans; [exact Hplay|]. vm_compute. reflexivity.
  - etrans; [exact Hactive|]. vm_compute. reflexivity.
Defined.

Lemma published_scripts_are_served_witness :
  (@callTool noDates 1 (mkRequest "get_editor_state" scriptsOnly)
     publishedState).1
  = Ok (Done (ScriptsResult ["Assets/Foo.cs"; "Assets/Baz.cs"])).
Proof.
  assert (Hok : wellTyped samplePayload).
  { unfold wellTyped. apply (bool_decide_unpack _). vm_compute. exact I. }
  destruct (@published_scripts_are_served noDates 0 1 samplePayload
              connectedState 1%nat Hok eq_refl) as (Hserved & _).
  apply (Hserved ["Assets/Foo.cs"; "Packages/com.unity.ugui/Bar.cs";
                  "Assets/Baz.cs"]).
  vm_compute. reflexivity.
Defined.

Lemma connection_is_last_socket_witness :
  unityConnection
    (@run noDates [(0, WsConnection 1); (1, WsConnection 2); (2, WsClose 1)]
          initialState)
  = None.
Proof.
  assert (Hcode : validCode "Debug.Log(1);") by (unfold validCode; simpl; lia).
  destruct (@connection_is_last_socket noDates 0 1 2 1%nat 2%nat "Debug.Log(1);"
              (mkRequest "get_logs" noArgs) initialState Hcode)
    as (_ & Hclosed & _).
  exact Hclosed.
Defined.

Lemma execute_dispatches_unless_blank_witness :
  ∃ c, (@callTool noDates 0 (mkRequest "execute_editor_command" (codeArgs " x "))
          connectedState).1 = Ok (Pending c).
Proof.
  destruct (@execute_dispatches_unless_blank noDates 0 (codeArgs " x ")
              connectedState 1%nat eq_refl) as (Hiff & _).
  apply Hiff. exists " x ". split; [reflexivity|].
  exists "x"%char. split; [|reflexivity].
  unfold chars. simpl. apply elem_of_cons. right. apply elem_of_cons. by left.
Defined.
